(** * vechain-sdk-js core: secp256k1, Address, mnemonic and HD-node contracts

    A shallow embedding of [packages/core/src/secp256k1/secp256k1.ts],
    [packages/core/src/vcdm/Address.ts] / [HexUInt.ts] and
    [packages/errors/src/helpers/decorators.ts], together with the parts
    of the mnemonic and HD-node components the specification describes.

    Buffers and [Uint8Array]s are lists of bytes, JavaScript [bigint]s are
    [Z], thrown errors are the [Throw] branch of [result]. *)

From Stdlib Require Import String Ascii ZArith List Bool Lia Setoid Morphisms.
From Stdlib.Strings Require Import Byte.
From Bignums Require Import BigZ.
Import ListNotations.
Close Scope bigZ_scope.
Open Scope Z_scope.

(* ================================================================== *)
(** * Part I: the embedding *)
(* ================================================================== *)

(** ** Bytes and buffers *)

Module Bytes.

Definition Buffer := list byte.

(** The numeric value of a byte, as read by [buf[i]]. *)
Definition u8 (b : byte) : Z := Z.of_N (Byte.to_N b).

(** [Buffer.from([z])]: a number is stored modulo 256. *)
Definition byte_of_Z (z : Z) : byte :=
  match Byte.of_N (Z.to_N (z mod 256)) with
  | Some b => b
  | None => x00
  end.

(** [bytesToNumberBE]: big-endian reading of a buffer. *)
Definition be2Z (bs : Buffer) : Z :=
  fold_left (fun acc b => acc * 256 + u8 b) bs 0.

(** [toArray('be', len)] / [numToNByteStr]: the [len] low-order base-256
    digits of [z], most significant first. *)
Fixpoint toBE (len : nat) (z : Z) : Buffer :=
  match len with
  | O => []
  | S l => byte_of_Z (z / 256 ^ Z.of_nat l) :: toBE l z
  end.

(** [buf.slice(s, e)] for [0 <= s <= e]. *)
Definition slice (a : Buffer) (s e : nat) : Buffer :=
  firstn (e - s) (skipn s a).

(** [a.equals(b)]: same length and same bytes. *)
Fixpoint Buffer_equals (a b : Buffer) : bool :=
  match a, b with
  | [], [] => true
  | x :: a', y :: b' => Byte.eqb x y && Buffer_equals a' b'
  | _, _ => false
  end.

(** [a.compare(b)]: -1, 0 or 1 following the first differing byte, a
    proper prefix sorting first. *)
Fixpoint Buffer_compare (a b : Buffer) : Z :=
  match a, b with
  | [], [] => 0
  | [], _ :: _ => -1
  | _ :: _, [] => 1
  | x :: a', y :: b' =>
      if u8 x <? u8 y then -1
      else if u8 y <? u8 x then 1
      else Buffer_compare a' b'
  end.

(** One hexadecimal digit. *)
Definition hexval (c : ascii) : option Z :=
  let n := Z.of_N (N_of_ascii c) in
  if (48 <=? n) && (n <=? 57) then Some (n - 48)
  else if (97 <=? n) && (n <=? 102) then Some (n - 87)
  else if (65 <=? n) && (n <=? 70) then Some (n - 55)
  else None.

(** [Buffer.from(s, 'hex')]: pairs of digits, stopping at the first pair
    that is not hexadecimal. *)
Fixpoint Buffer_from_hex (s : string) : Buffer :=
  match s with
  | String c1 (String c2 rest) =>
      match hexval c1, hexval c2 with
      | Some h, Some l => byte_of_Z (16 * h + l) :: Buffer_from_hex rest
      | _, _ => []
      end
  | _ => []
  end.

End Bytes.
Import Bytes.

(** ** Errors of [@vechain/sdk-errors] *)

Module Errors.

(** The error codes the core raises.  The specification calls
    [INVALID_SECP256k1_MESSAGE_HASH] "InvalidMessageHash",
    [INVALID_SECP256K1_PRIVATE_KEY] "InvalidPrivateKey",
    [INVALID_SECP256k1_SIGNATURE] "InvalidSignature" and
    [INVALID_SECP256k1_SIGNATURE_RECOVERY] "InvalidSignatureRecovery".
    [LibraryError] is a plain [Error] thrown by a third-party library. *)
Inductive ErrorCode : Type :=
  | INVALID_SECP256k1_MESSAGE_HASH
  | INVALID_SECP256K1_PRIVATE_KEY
  | INVALID_SECP256k1_SIGNATURE
  | INVALID_SECP256k1_SIGNATURE_RECOVERY
  | INVALID_DATA_TYPE
  | INVALID_HDNODE
  | INVALID_HDNODE_MNEMONIC
  | LibraryError.

Record SdkError : Type := mkError {
  code : ErrorCode;
  methodName : string;
  message : string
}.

Inductive result (A : Type) : Type :=
  | Ok (a : A)
  | Throw (e : SdkError).
Arguments Ok {A} a.
Arguments Throw {A} e.

Definition bind {A B : Type} (c : result A) (k : A -> result B) : result B :=
  match c with
  | Ok a => k a
  | Throw e => Throw e
  end.

Definition throws {A : Type} (c : result A) (ec : ErrorCode) : Prop :=
  exists e, c = Throw e /\ code e = ec.

Definition returns {A : Type} (c : result A) : Prop :=
  exists a, c = Ok a.

End Errors.
Import Errors.

Notation "x <- c ;; k" := (bind c (fun x => k))
  (at level 61, c at next level, right associativity).
Notation "c ;;; k" := (bind c (fun _ => k))
  (at level 61, right associativity).

(** Modelled from the spec: the source of [assert] (errors package) is not
    available; section 7 has every validation "performed eagerly" and
    surface "a typed failure" when its condition is false. *)
Definition assert (method : string) (condition : bool) (ec : ErrorCode)
  (msg : string) : result unit :=
  if condition then Ok tt else Throw (mkError ec method msg).

(** ** [secp256k1.ts]: key and hash validation, key compression *)

Module secp256k1_checks.

(** Modelled from the spec: the source of [ZERO_BUFFER] (utils) is not
    available; it is "the all-zero key" of the given length. *)
Definition ZERO_BUFFER (size : nat) : Buffer := repeat x00 size.

Definition SIGNATURE_LENGTH : nat := 65.

Definition PRIVATE_KEY_MAX_VALUE : Buffer :=
  Buffer_from_hex
    "fffffffffffffffffffffffffffffffebaaedce6af48a03bbfd25e8cd0364141".

(** The order of the secp256k1 base point. *)
Definition curveOrder : Z :=
  0xfffffffffffffffffffffffffffffffebaaedce6af48a03bbfd25e8cd0364141.

Definition isValidMessageHash (hash : Buffer) : bool :=
  (length hash =? 32)%nat.

Definition isValidPrivateKey (privateKey : Buffer) : bool :=
  (length privateKey =? 32)%nat
  && negb (Buffer_equals privateKey (ZERO_BUFFER 32))
  && (Buffer_compare privateKey PRIVATE_KEY_MAX_VALUE <? 0).

(** Modelled from the spec: the source of the two helpers of
    [../assertions] is not available; they fail with InvalidMessageHash,
    respectively InvalidPrivateKey, when the predicate they are handed
    rejects the value. *)
Definition assertIsValidSecp256k1MessageHash (method : string)
  (msgHash : Buffer) (isValid : Buffer -> bool) : result unit :=
  assert method (isValid msgHash) INVALID_SECP256k1_MESSAGE_HASH
    "InvalidMessageHash".

Definition assertIsValidPrivateKey (method : string)
  (privateKey : Buffer) (isValid : Buffer -> bool) : result unit :=
  assert method (isValid privateKey) INVALID_SECP256K1_PRIVATE_KEY
    "InvalidPrivateKey".

(** [y[y.length - 1] & 1]; reading past the end of an empty array gives
    [undefined], and [undefined & 1] is [0]. *)
Definition lastBitOf (y : Buffer) : Z :=
  match nth_error y (length y - 1) with
  | Some b => Z.land (u8 b) 1
  | None => 0
  end.

Definition compressPublicKey (publicKey : Buffer) : result Buffer :=
  match nth_error publicKey 0 with
  | Some prefix =>
      if u8 prefix =? 4 then
        let x := slice publicKey 1 33 in
        let y := slice publicKey 33 65 in
        let isYOdd := lastBitOf y in
        Ok (byte_of_Z (2 + isYOdd) :: x)
      else Ok publicKey
  | None => Ok publicKey
  end.

(** The shape of a point encoding: 33 bytes behind 0x02/0x03, or 65 bytes
    behind 0x04. *)
Definition hasEncodingShape (pk : Buffer) : bool :=
  match pk with
  | [] => false
  | p :: _ =>
      ((length pk =? 33)%nat && ((u8 p =? 2) || (u8 p =? 3)))
      || ((length pk =? 65)%nat && (u8 p =? 4))
  end.

End secp256k1_checks.
Import secp256k1_checks.

(** ** The curve library [@noble/curves/secp256k1], as the SDK calls it

    The library is a collaborator of the repository, not part of it.  Its
    group arithmetic is taken through the interface [Curve]; its byte
    formats, its range checks and the ECDSA formulas built on the group
    are written out. *)

Module Noble.

(** [CURVE.n] and [Fp.ORDER] of secp256k1. *)
Definition CURVE_n : Z := curveOrder.
Definition Fp_ORDER : Z :=
  0xfffffffffffffffffffffffffffffffffffffffffffffffffffffffefffffc2f.

(** The group of curve points: [ZERO] is the point at infinity,
    [multiply P k] the scalar multiple, [toAffine] the coordinates of a
    finite point, [liftX x odd] the point of abscissa [x] whose ordinate
    has the asked parity, when there is one. *)
Class Curve : Type := {
  point : Type;
  ZERO : point;
  BASE : point;
  add : point -> point -> point;
  multiply : point -> Z -> point;
  toAffine : point -> option (Z * Z);
  liftX : Z -> bool -> option point
}.

(** The RFC 6979 generator: [candidate seed i] is the [i]-th nonce the
    HMAC-DRBG seeded with [seed] proposes. *)
Class Drbg : Type := {
  candidate : Buffer -> nat -> Buffer
}.

Record Signature : Type := mkSignature {
  r : Z;
  s : Z;
  recovery : option Z
}.

Definition libraryError (what : string) : SdkError :=
  mkError LibraryError "@noble/curves" what.

Definition modN (a : Z) : Z := a mod CURVE_n.
Definition invN (a : Z) : Z := Z.invmod a CURVE_n.

Definition isWithinCurveOrder (num : Z) : bool :=
  (0 <? num) && (num <? CURVE_n).

Definition isBiggerThanHalfOrder (number : Z) : bool :=
  Z.shiftr CURVE_n 1 <? number.

(** [bits2int]: the leftmost 256 bits of the bytes, as a number. *)
Definition bits2int (bytes : Buffer) : Z :=
  let num := be2Z bytes in
  let delta := Z.of_nat (length bytes) * 8 - 256 in
  if 0 <? delta then Z.shiftr num delta else num.

Definition bits2int_modN (bytes : Buffer) : Z := modN (bits2int bytes).

Definition normPrivateKeyToScalar (key : Buffer) : result Z :=
  if negb (length key =? 32)%nat then
    Throw (libraryError "private key must be 32 bytes")
  else
    let num := be2Z key in
    if isWithinCurveOrder num then Ok num
    else Throw (libraryError "private key must be 0 < key < CURVE.n").

Section WithCurve.

Context {C : Curve}.

(** [Point.toRawBytes(isCompressed)]. *)
Definition toRawBytes (P : point) (isCompressed : bool) : result Buffer :=
  match toAffine P with
  | None => Throw (libraryError "bad point: ZERO")
  | Some (x, y) =>
      if isCompressed then
        Ok (byte_of_Z (if Z.even y then 2 else 3) :: toBE 32 x)
      else
        Ok (byte_of_Z 4 :: toBE 32 x ++ toBE 32 y)
  end.

Definition getPublicKey (privateKey : Buffer) (isCompressed : bool)
  : result Buffer :=
  d <- normPrivateKeyToScalar privateKey ;;
  toRawBytes (multiply BASE d) isCompressed.

(** [k2sig]: the signature a nonce [k] gives for the hash number [m] and
    the key [d], or nothing when the nonce is unusable. *)
Definition k2sig (m d k : Z) : option Signature :=
  if negb (isWithinCurveOrder k) then None
  else
    let ik := invN k in
    match toAffine (multiply BASE k) with
    | None => None
    | Some (qx, qy) =>
        let r := modN qx in
        if r =? 0 then None
        else
          let s := modN (ik * modN (m + r * d)) in
          if s =? 0 then None
          else
            let recovery := Z.lor (if qx =? r then 0 else 2) (Z.land qy 1) in
            if isBiggerThanHalfOrder s then
              Some (mkSignature r (modN (- s)) (Some (Z.lxor recovery 1)))
            else
              Some (mkSignature r s (Some recovery))
    end.

(** [Signature.fromCompact]: 64 bytes, both halves inside ]0, n[. *)
Definition Signature_fromCompact (hex : Buffer) : result Signature :=
  if negb (length hex =? 64)%nat then
    Throw (libraryError "compactSignature expected 64 bytes")
  else
    let r := be2Z (slice hex 0 32) in
    let s := be2Z (slice hex 32 64) in
    if negb (isWithinCurveOrder r) then
      Throw (libraryError "r must be 0 < r < CURVE.n")
    else if negb (isWithinCurveOrder s) then
      Throw (libraryError "s must be 0 < s < CURVE.n")
    else Ok (mkSignature r s None).

Definition addRecoveryBit (sg : Signature) (recovery : option Z) : Signature :=
  mkSignature (r sg) (s sg) recovery.

(** [Point.fromHex] on a compressed encoding [head ++ x]. *)
Definition Point_fromCompressed (odd : bool) (x : Z) : result point :=
  if negb ((0 <? x) && (x <? Fp_ORDER)) then
    Throw (libraryError "Point is not on curve")
  else
    match liftX x odd with
    | Some P => Ok P
    | None => Throw (libraryError "Point is not on curve")
    end.

(** [sig.recoverPublicKey(msgHash)]: Q = (s/r) R - (h/r) G. *)
Definition recoverPublicKey (sg : Signature) (msgHash : Buffer)
  : result point :=
  let h := bits2int_modN msgHash in
  match recovery sg with
  | None => Throw (libraryError "recovery id invalid")
  | Some rec =>
      if negb ((0 <=? rec) && (rec <=? 3)) then
        Throw (libraryError "recovery id invalid")
      else
        let radj := if (rec =? 2) || (rec =? 3) then r sg + CURVE_n else r sg in
        if Fp_ORDER <=? radj then
          Throw (libraryError "recovery id 2 or 3 invalid")
        else
          R <- Point_fromCompressed (negb (Z.land rec 1 =? 0)) radj ;;
          let ir := invN radj in
          let u1 := modN (- h * ir) in
          let u2 := modN (s sg * ir) in
          let Q := add (multiply BASE u1) (multiply R u2) in
          match toAffine Q with
          | None => Throw (libraryError "point at infinify")
          | Some _ => Ok Q
          end
  end.

Context {D : Drbg}.

(** The generator loop: the first of at most [fuel] candidates, from the
    [i]-th on, that [k2sig] accepts. *)
Fixpoint genUntil (seed : Buffer) (m d : Z) (i fuel : nat) : option Signature :=
  match fuel with
  | O => None
  | S fuel' =>
      match k2sig m d (bits2int (candidate seed i)) with
      | Some sg => Some sg
      | None => genUntil seed m d (S i) fuel'
      end
  end.

(** [secp256k1.sign(msgHash, privKey)] with the library's defaults
    (low-s, no extra entropy, no prehash). *)
Definition sign (msgHash privKey : Buffer) : result Signature :=
  let h1int := bits2int_modN msgHash in
  d <- normPrivateKeyToScalar privKey ;;
  let seed := toBE 32 d ++ toBE 32 h1int in
  match genUntil seed h1int d 0 1000 with
  | Some sg => Ok sg
  | None => Throw (libraryError "drbg: tried 1000 values")
  end.

End WithCurve.

End Noble.

(** ** The library on the real curve

    An executable instance of the interface: secp256k1 over [Fp.ORDER] in
    Jacobian coordinates, and the RFC 6979 HMAC-DRBG over SHA-256 that
    the library draws nonces from. *)

Module Sha256.

Definition w32 (x : Z) : Z := Z.land x 0xffffffff.
Definition rotr (x n : Z) : Z := Z.lor (Z.shiftr x n) (w32 (Z.shiftl x (32 - n))).
Definition Ch (x y z : Z) : Z := Z.lxor (Z.land x y) (Z.land (Z.lxor x 0xffffffff) z).
Definition Maj (x y z : Z) : Z := Z.lxor (Z.lxor (Z.land x y) (Z.land x z)) (Z.land y z).
Definition Sigma0 (x : Z) : Z := Z.lxor (Z.lxor (rotr x 2) (rotr x 13)) (rotr x 22).
Definition Sigma1 (x : Z) : Z := Z.lxor (Z.lxor (rotr x 6) (rotr x 11)) (rotr x 25).
Definition sigma0 (x : Z) : Z := Z.lxor (Z.lxor (rotr x 7) (rotr x 18)) (Z.shiftr x 3).
Definition sigma1 (x : Z) : Z := Z.lxor (Z.lxor (rotr x 17) (rotr x 19)) (Z.shiftr x 10).

(** The round constants and the initial state are the first 32 bits of
    the fractional parts of the cube roots, respectively square roots, of
    the first primes. *)
Definition isPrime (n : Z) : bool :=
  forallb (fun d => negb (n mod d =? 0))
          (map Z.of_nat (seq 2 (Z.to_nat n - 2))).

Definition primes : list Z :=
  filter isPrime (map Z.of_nat (seq 2 310)).

(** The integer cube root, bit by bit from the top. *)
Fixpoint icbrt (bits : nat) (n acc : Z) : Z :=
  match bits with
  | O => acc
  | S b =>
      let c := acc + 2 ^ Z.of_nat b in
      icbrt b n (if c * c * c <=? n then c else acc)
  end.

Definition K : list Z :=
  Eval vm_compute in
    map (fun q => w32 (icbrt 40 (q * 2 ^ 96) 0)) (firstn 64 primes).

Definition IV : list Z :=
  Eval vm_compute in
    map (fun q => w32 (Z.sqrt (q * 2 ^ 64))) (firstn 8 primes).

Definition pad (msg : Buffer) : Buffer :=
  let l := length msg in
  let zeros := ((64 - (l + 9) mod 64) mod 64)%nat in
  msg ++ [x80] ++ repeat x00 zeros ++ toBE 8 (Z.of_nat l * 8).

Fixpoint words (fuel : nat) (bs : Buffer) : list Z :=
  match fuel, bs with
  | S f, a :: b :: c :: d :: rest => be2Z [a; b; c; d] :: words f rest
  | _, _ => []
  end.

Fixpoint schedule (n : nat) (rev_w : list Z) : list Z :=
  match n with
  | O => rev_w
  | S n' =>
      let w := w32 (sigma1 (nth 1 rev_w 0) + nth 6 rev_w 0
                    + sigma0 (nth 14 rev_w 0) + nth 15 rev_w 0) in
      schedule n' (w :: rev_w)
  end.

Definition round (st : list Z) (kw : Z * Z) : list Z :=
  match st with
  | [a; b; c; d; e; f; g; h] =>
      let t1 := h + Sigma1 e + Ch e f g + fst kw + snd kw in
      let t2 := Sigma0 a + Maj a b c in
      [w32 (t1 + t2); a; b; c; w32 (d + t1); e; f; g]
  | _ => st
  end.

Definition compress (H : list Z) (block : list Z) : list Z :=
  let W := rev (schedule 48 (rev block)) in
  let st := fold_left round (combine K W) H in
  map (fun p => w32 (fst p + snd p)) (combine H st).

Fixpoint blocks (fuel : nat) (ws : list Z) (H : list Z) : list Z :=
  match fuel with
  | O => H
  | S f =>
      match ws with
      | [] => H
      | _ => blocks f (skipn 16 ws) (compress H (firstn 16 ws))
      end
  end.

Definition sha256 (msg : Buffer) : Buffer :=
  let p := pad msg in
  let ws := words (length p) p in
  flat_map (toBE 4) (blocks (length ws) ws IV).

Definition hmac (key msg : Buffer) : Buffer :=
  let k0 := if (64 <? length key)%nat then sha256 key else key in
  let k := k0 ++ repeat x00 (64 - length k0) in
  let ipad := map (fun b => byte_of_Z (Z.lxor (u8 b) 0x36)) k in
  let opad := map (fun b => byte_of_Z (Z.lxor (u8 b) 0x5c)) k in
  sha256 (opad ++ sha256 (ipad ++ msg)).

End Sha256.

Module HmacDrbg.

(** The generator state: the key [k] and the value [v]. *)
Definition state : Type := (Buffer * Buffer)%type.

Definition init : state := (repeat x00 32, repeat x01 32).

Definition reseed (seed : Buffer) (st : state) : state :=
  let '(k, v) := st in
  let k := Sha256.hmac k (v ++ [x00] ++ seed) in
  let v := Sha256.hmac k v in
  match seed with
  | [] => (k, v)
  | _ =>
      let k := Sha256.hmac k (v ++ [x01] ++ seed) in
      let v := Sha256.hmac k v in
      (k, v)
  end.

Definition gen (st : state) : Buffer * state :=
  let '(k, v) := st in
  let v := Sha256.hmac k v in
  (v, (k, v)).

(** The state before the [i]-th call of [gen]. *)
Fixpoint stateAt (seed : Buffer) (i : nat) : state :=
  match i with
  | O => reseed seed init
  | S j => reseed [] (snd (gen (stateAt seed j)))
  end.

Definition candidate (seed : Buffer) (i : nat) : Buffer :=
  fst (gen (stateAt seed i)).

End HmacDrbg.

Module Weierstrass.

Definition p : bigZ := BigZ.of_Z Noble.Fp_ORDER.
Definition fmul (a b : bigZ) : bigZ := BigZ.modulo (BigZ.mul a b) p.
Definition fadd (a b : bigZ) : bigZ := BigZ.modulo (BigZ.add a b) p.
Definition fsub (a b : bigZ) : bigZ := BigZ.modulo (BigZ.sub a b) p.
Definition fis0 (a : bigZ) : bool := BigZ.eqb a BigZ.zero.

Fixpoint fpow (a : bigZ) (e : positive) : bigZ :=
  match e with
  | xH => BigZ.modulo a p
  | xO e' => let h := fpow a e' in fmul h h
  | xI e' => let h := fpow a e' in fmul a (fmul h h)
  end.

Definition fpowZ (a : bigZ) (e : Z) : bigZ :=
  match e with
  | Zpos e' => fpow a e'
  | _ => BigZ.one
  end.

Definition finv (a : bigZ) : bigZ := fpowZ a (Noble.Fp_ORDER - 2).

(** Jacobian coordinates (X, Y, Z) of the point (X/Z^2, Y/Z^3); Z = 0 is
    the point at infinity. *)
Definition jac : Type := (bigZ * bigZ * bigZ)%type.

Definition jzero : jac := (BigZ.one, BigZ.one, BigZ.zero).

Definition jdouble (A : jac) : jac :=
  let '(x, y, z) := A in
  if fis0 z || fis0 y then jzero
  else
    let a := fmul x x in
    let b := fmul y y in
    let c := fmul b b in
    let xb := fadd x b in
    let d := fadd (fsub (fsub (fmul xb xb) a) c) (fsub (fsub (fmul xb xb) a) c) in
    let e := fadd a (fadd a a) in
    let f := fmul e e in
    let x3 := fsub f (fadd d d) in
    let c8 := fadd (fadd (fadd c c) (fadd c c)) (fadd (fadd c c) (fadd c c)) in
    let y3 := fsub (fmul e (fsub d x3)) c8 in
    let z3 := fmul (fadd y y) z in
    (x3, y3, z3).

Definition jadd (A B : jac) : jac :=
  let '(x1, y1, z1) := A in
  let '(x2, y2, z2) := B in
  if fis0 z1 then B
  else if fis0 z2 then A
  else
    let z1z1 := fmul z1 z1 in
    let z2z2 := fmul z2 z2 in
    let u1 := fmul x1 z2z2 in
    let u2 := fmul x2 z1z1 in
    let s1 := fmul y1 (fmul z2 z2z2) in
    let s2 := fmul y2 (fmul z1 z1z1) in
    if BigZ.eqb u1 u2 then
      if BigZ.eqb s1 s2 then jdouble A else jzero
    else
      let h := fsub u2 u1 in
      let r := fsub s2 s1 in
      let h2 := fmul h h in
      let h3 := fmul h h2 in
      let v := fmul u1 h2 in
      let x3 := fsub (fsub (fmul r r) h3) (fadd v v) in
      let y3 := fsub (fmul r (fsub v x3)) (fmul s1 h3) in
      let z3 := fmul h (fmul z1 z2) in
      (x3, y3, z3).

Fixpoint jmul (A : jac) (k : positive) : jac :=
  match k with
  | xH => A
  | xO k' => jdouble (jmul A k')
  | xI k' => jadd A (jdouble (jmul A k'))
  end.

(** Points in affine coordinates over [Z]; [None] is the point at
    infinity. *)
Definition affine : Type := option (Z * Z).

Definition toJac (A : affine) : jac :=
  match A with
  | None => jzero
  | Some (x, y) => (BigZ.of_Z (x mod Noble.Fp_ORDER), BigZ.of_Z (y mod Noble.Fp_ORDER), BigZ.one)
  end.

Definition ofJac (A : jac) : affine :=
  let '(x, y, z) := A in
  if fis0 z then None
  else
    let iz := finv z in
    let iz2 := fmul iz iz in
    Some (BigZ.to_Z (fmul x iz2), BigZ.to_Z (fmul y (fmul iz iz2))).

Definition add (A B : affine) : affine := ofJac (jadd (toJac A) (toJac B)).

Definition negate (A : affine) : affine :=
  match A with
  | None => None
  | Some (x, y) => Some (x, (- y) mod Noble.Fp_ORDER)
  end.

Definition multiply (A : affine) (k : Z) : affine :=
  match k with
  | Z0 => None
  | Zpos k' => ofJac (jmul (toJac A) k')
  | Zneg k' => negate (ofJac (jmul (toJac A) k'))
  end.

Definition Gx : Z := 0x79be667ef9dcbbac55a06295ce870b07029bfcdb2dce28d959f2815b16f81798.
Definition Gy : Z := 0x483ada7726a3c4655da4fbfc0e1108a8fd17b448a68554199c47d08ffb10d4b8.

(** The square root in the field, p = 3 mod 4. *)
Definition liftX (x : Z) (odd : bool) : option affine :=
  let bx := BigZ.of_Z (x mod Noble.Fp_ORDER) in
  let y2 := fadd (fmul bx (fmul bx bx)) (BigZ.of_Z 7) in
  let y := fpowZ y2 ((Noble.Fp_ORDER + 1) / 4) in
  if BigZ.eqb (fmul y y) y2 then
    let yz := BigZ.to_Z y in
    Some (Some (x, if Bool.eqb (Z.odd yz) odd then yz else (- yz) mod Noble.Fp_ORDER))
  else None.

End Weierstrass.

#[export] Instance secp256k1_curve : Noble.Curve := {|
  Noble.point := Weierstrass.affine;
  Noble.ZERO := None;
  Noble.BASE := Some (Weierstrass.Gx, Weierstrass.Gy);
  Noble.add := Weierstrass.add;
  Noble.multiply := Weierstrass.multiply;
  Noble.toAffine := fun A => A;
  Noble.liftX := Weierstrass.liftX
|}.

#[export] Instance rfc6979 : Noble.Drbg := {|
  Noble.candidate := HmacDrbg.candidate
|}.

(** [new BN(z.toString()).toArray('be', len)] of bn.js: the magnitude on
    [len] bytes, an assertion failure when it does not fit. *)
Definition BN_toArray_be (z : Z) (len : nat) : result Buffer :=
  if Z.abs z <? 256 ^ Z.of_nat len then Ok (toBE len (Z.abs z))
  else Throw (mkError LibraryError "bn.js" "byte array longer than desired length").

(** ** [secp256k1.ts]: keys and signatures *)

Module secp256k1.

Section WithLibrary.

Context {C : Noble.Curve} {D : Noble.Drbg}.

(** A parameter with a default value: an omitted argument is [None]. *)
Definition orDefault {A : Type} (default : A) (argument : option A) : A :=
  match argument with
  | Some a => a
  | None => default
  end.

Definition derivePublicKey (privateKey : Buffer) (isCompressed : option bool)
  : result Buffer :=
  let isCompressed := orDefault true isCompressed in
  assertIsValidPrivateKey "derivePublicKey" privateKey isValidPrivateKey ;;;
  Noble.getPublicKey privateKey isCompressed.

Definition sign (messageHash privateKey : Buffer) : result Buffer :=
  assertIsValidSecp256k1MessageHash "sign" messageHash isValidMessageHash ;;;
  assertIsValidPrivateKey "sign" privateKey isValidPrivateKey ;;;
  sig <- Noble.sign messageHash privateKey ;;
  r <- BN_toArray_be (Noble.r sig) 32 ;;
  s <- BN_toArray_be (Noble.s sig) 32 ;;
  Ok (r ++ s ++ [byte_of_Z (match Noble.recovery sig with
                            | Some v => v
                            | None => 0
                            end)]).

(** [recovery === 0 || recovery === 1] on the possibly absent [sig[64]]. *)
Definition isZeroOrOne (recovery : option Z) : bool :=
  match recovery with
  | Some v => (v =? 0) || (v =? 1)
  | None => false
  end.

Definition recover (messageHash sig : Buffer) : result Buffer :=
  assertIsValidSecp256k1MessageHash "recover" messageHash isValidMessageHash ;;;
  assert "recover" (length sig =? SIGNATURE_LENGTH)%nat
    INVALID_SECP256k1_SIGNATURE
    "Invalid signature given as input. Length must be exactly 65 bytes." ;;;
  let recovery := option_map u8 (nth_error sig 64) in
  assert "recover" (isZeroOrOne recovery)
    INVALID_SECP256k1_SIGNATURE_RECOVERY
    "Invalid signature recovery value. Signature bytes at position 64 must be 0 or 1." ;;;
  sg <- Noble.Signature_fromCompact (slice sig 0 64) ;;
  Q <- Noble.recoverPublicKey (Noble.addRecoveryBit sg recovery) messageHash ;;
  Noble.toRawBytes Q false.

End WithLibrary.

End secp256k1.

(** ** [decorators.ts], [HexUInt.ts] and [Address.ts] *)

Module vcdm.

(** [errorHandler]: an [InvalidDataType] raised below passes through,
    anything else is replaced by a fresh [InvalidDataType]. *)
Definition errorHandler {A : Type} (subclassError : SdkError)
  (method errorMessage : string) : result A :=
  match code subclassError with
  | INVALID_DATA_TYPE => Throw subclassError
  | _ => Throw (mkError INVALID_DATA_TYPE method errorMessage)
  end.

(** [ErrorInterceptor(errorMessage)] around a static method: [target] is
    the class, so [target.constructor.name] is ["Function"]. *)
Definition ErrorInterceptor {A : Type} (errorMessage methodName : string)
  (originalMethod : result A) : result A :=
  match originalMethod with
  | Ok a => Ok a
  | Throw error =>
      errorHandler error (String.append "Function." methodName) errorMessage
  end.

(** Modelled from the spec: Hex.ts and HexInt.ts are not available; section
    9 calls them "layered hex/unsigned-integer representations".  A value
    is a sign and a string of hexadecimal digits. *)
Record Hex : Type := mkHex {
  sign : Z;
  digits : string
}.

Definition NEGATIVE : Z := -1.
Definition POSITIVE : Z := 1.

(** The number of bytes the digits stand for. *)
Definition byteLength (h : Hex) : nat := Nat.div2 (S (String.length (digits h))).

Section Constructors.

(** The expressions a value is built from ([bigint | number | string |
    Uint8Array | HexInt]) and [HexInt.of], whose source is not
    available. *)
Variable Exp : Type.
Variable HexInt_of : Exp -> result Hex.

(** [new HexUInt(hi)]. *)
Definition HexUInt_constructor (hi : Hex) : result Hex :=
  if POSITIVE <=? sign hi then Ok hi
  else Throw (mkError INVALID_DATA_TYPE "HexUInt.constructor" "not positive").

Definition HexUInt_of (exp : Exp) : result Hex :=
  ErrorInterceptor "not a valid hexadecimal unsigned integer expression" "of"
    (hi <- HexInt_of exp ;; HexUInt_constructor hi).

(** [new Address(hi)]: nothing but [super(hi)]. *)
Definition Address_constructor (hi : Hex) : result Hex :=
  HexUInt_constructor hi.

Definition Address_of (exp : Exp) : result Hex :=
  ErrorInterceptor "not a valid address expression" "of"
    (hi <- HexUInt_of exp ;; Address_constructor hi).

Definition Address_from (exp : Exp) : result Hex :=
  ErrorInterceptor "not a valid address expression" "from"
    (hi <- HexUInt_of exp ;; Address_constructor hi).

End Constructors.

(** A hexadecimal digit, in lower case. *)
Definition lowerHexDigit (c : ascii) : option ascii :=
  match hexval c with
  | Some v => Some (ascii_of_N (Z.to_N (if v <? 10 then 48 + v else 87 + v)))
  | None => None
  end.

Fixpoint lowerHexDigits (s : string) : option string :=
  match s with
  | EmptyString => Some EmptyString
  | String c rest =>
      match lowerHexDigit c, lowerHexDigits rest with
      | Some d, Some ds => Some (String d ds)
      | _, _ => None
      end
  end.

Definition dropPrefix (pre s : string) : string :=
  if String.prefix pre s
  then String.substring (String.length pre) (String.length s - String.length pre) s
  else s.

(** Modelled from the spec: the source of [HexInt.of] is not available.
    The unit tests of the repository (Address, HexUInt, Blake2b256) fix
    what is used here of its reading of a string: an optional minus
    sign, an optional [0x], then hexadecimal digits of either case, held
    in lower case; anything else is an invalid expression. *)
Definition HexInt_of_string (exp : string) : result Hex :=
  let negative := String.prefix "-" exp in
  let body := dropPrefix "0x" (dropPrefix "-" exp) in
  match lowerHexDigits body with
  | Some ds => Ok (mkHex (if negative then NEGATIVE else POSITIVE) ds)
  | None =>
      Throw (mkError INVALID_DATA_TYPE "Hex.of"
               "not a hexadecimal expression")
  end.

End vcdm.

(** ** The mnemonic component *)

Module mnemonic.

Section WithWordlist.

(** The fixed word list and the 256-bit hash are collaborators of the
    core (section 6 of the specification). *)
Variable wordlist : list string.
Variable hash : Buffer -> Buffer.

(** Modelled from the spec: a phrase has a "length in {12,15,18,21,24}". *)
Definition wordCounts : list nat := [12; 15; 18; 21; 24]%nat.

(** Modelled from the spec: mnemonic.ts is not available.  Section 4.1
    gives a phrase of [wordCount] words [wordCount * 11 / 33 * 4] bytes
    of entropy and a checksum of [entropyBits / 32] bits "taken from the
    most-significant bits of the entropy's hash", the two packed "into
    11-bit groups indexing the word list". *)
Definition entropyBytes (wordCount : nat) : nat :=
  (wordCount * 11 / 33 * 4)%nat.

(** Modelled from the spec: "a checksum of [entropyBits / 32] bits". *)
Definition checksumBits (wordCount : nat) : Z :=
  Z.of_nat (entropyBytes wordCount * 8 / 32).

(** The position of a word in the list, if it is there. *)
Fixpoint indexOf (w : string) (l : list string) : option Z :=
  match l with
  | [] => None
  | x :: rest =>
      if String.eqb w x then Some 0
      else option_map Z.succ (indexOf w rest)
  end.

(** Modelled from the spec: "word-list membership is mandatory"; the
    words as 11-bit indices, or nothing when one is outside the list. *)
Fixpoint indices (words : list string) : option (list Z) :=
  match words with
  | [] => Some []
  | w :: rest =>
      match indexOf w wordlist, indices rest with
      | Some i, Some others => Some (i :: others)
      | _, _ => None
      end
  end.

(** The 11-bit groups, first word most significant. *)
Definition packed (idx : list Z) : Z :=
  fold_left (fun acc i => acc * 2048 + i) idx 0.

(** Modelled from the spec: the entropy is what precedes the checksum
    bits. *)
Definition entropyOf (wordCount : nat) (idx : list Z) : Buffer :=
  toBE (entropyBytes wordCount)
       (Z.shiftr (packed idx) (checksumBits wordCount)).

(** Modelled from the spec: the "checksum bits embedded in the final
    word". *)
Definition embeddedChecksum (wordCount : nat) (idx : list Z) : Z :=
  packed idx mod 2 ^ checksumBits wordCount.

(** Modelled from the spec: the checksum "taken from the
    most-significant bits of the entropy's hash"; it has at most 8 bits. *)
Definition recomputedChecksum (wordCount : nat) (entropy : Buffer) : Z :=
  Z.shiftr (be2Z (firstn 1 (hash entropy)))
           (8 - checksumBits wordCount).

(** Modelled from the spec: section 7 gives an error "enough context
    (operation name, offending field) to diagnose without echoing raw
    secret material". *)
Definition invalidMnemonic (operation : string) : SdkError :=
  mkError INVALID_HDNODE_MNEMONIC operation "words".

(** Modelled from the spec: decoding a phrase fails "if any word is
    absent from the list or word count is invalid", and on a checksum
    that does not match. *)
Definition toEntropy (words : list string) : result Buffer :=
  let n := length words in
  if negb (existsb (Nat.eqb n) wordCounts) then
    Throw (invalidMnemonic "mnemonic.toEntropy")
  else
    match indices words with
    | None => Throw (invalidMnemonic "mnemonic.toEntropy")
    | Some idx =>
        let entropy := entropyOf n idx in
        if embeddedChecksum n idx =? recomputedChecksum n entropy
        then Ok entropy
        else Throw (invalidMnemonic "mnemonic.toEntropy")
    end.

(** Modelled from the spec: [isValid] "recomputes the checksum from the
    decoded entropy and compares; returns false (never throws)". *)
Definition isValid (words : list string) : bool :=
  match toEntropy words with
  | Ok _ => true
  | Throw _ => false
  end.

(** The key-stretching function (PBKDF2, 2048 rounds of HMAC-SHA512) is
    a collaborator: password, salt, 64 bytes out. *)
Variable pbkdf2 : Buffer -> Buffer -> Buffer.

Definition lowerAscii (c : ascii) : ascii :=
  let n := N_of_ascii c in
  if ((65 <=? n) && (n <=? 90))%N then ascii_of_N (n + 32) else c.

Fixpoint toLowerCase (s : string) : string :=
  match s with
  | EmptyString => EmptyString
  | String c rest => String (lowerAscii c) (toLowerCase rest)
  end.

(** Modelled from the spec: [toSeed] "fails with InvalidMnemonic if any
    word is absent from the list or word count is invalid; otherwise
    always succeeds, applying case-insensitive normalization before key
    stretching". *)
Definition toSeed (words : list string) (passphrase : string) : result Buffer :=
  let normalized := map toLowerCase words in
  if negb (existsb (Nat.eqb (length words)) wordCounts) then
    Throw (invalidMnemonic "mnemonic.toSeed")
  else
    match indices normalized with
    | None => Throw (invalidMnemonic "mnemonic.toSeed")
    | Some _ =>
        Ok (pbkdf2 (list_byte_of_string (String.concat " " normalized))
                   (list_byte_of_string (String.append "mnemonic" passphrase)))
    end.

End WithWordlist.

End mnemonic.

(** ** The text of an error *)

Module ErrorText.

Local Open Scope string_scope.





(** [text.split(' ')]: the pieces between single spaces; there is always
    at least one. *)
Fixpoint splitAcc (s : string) (current : string) : list string :=
  match s with
  | EmptyString => [current]
  | String c rest =>
      if Ascii.eqb c " " then current :: splitAcc rest EmptyString
      else splitAcc rest (String.append current (String c EmptyString))
  end.

Definition split (s : string) : list string := splitAcc s EmptyString.

End ErrorText.

(** ** The hierarchical key tree *)

Module HDNode.

Record t : Type := mk {
  privateKey : option Buffer;
  publicKey : Buffer;
  chainCode : Buffer;
  depth : Z;
  parentFingerprint : Buffer;
  index : Z
}.

(** An index with its high bit set asks for a hardened child. *)
Definition HARDENED_OFFSET : Z := 0x80000000.

Definition invalidHDNode (what : string) : SdkError :=
  mkError INVALID_HDNODE "HDNode" what.

Section WithCollaborators.

Context {C : Noble.Curve}.

(** HMAC-SHA512 (key, data, 64 bytes out) and the fingerprint of a public
    key are collaborators. *)
Variable hmacSha512 : Buffer -> Buffer -> Buffer.
Variable fingerprint : Buffer -> Buffer.

(** [Point.fromHex]: 33 bytes behind 0x02/0x03, or 65 bytes behind 0x04
    that satisfy the curve equation. *)
Definition decodePoint (encoded : Buffer) : result Noble.point :=
  match encoded with
  | p :: rest =>
      if (length rest =? 32)%nat && ((u8 p =? 2) || (u8 p =? 3)) then
        Noble.Point_fromCompressed (u8 p =? 3) (be2Z rest)
      else if (length rest =? 64)%nat && (u8 p =? 4) then
        let x := be2Z (firstn 32 rest) in
        let y := be2Z (skipn 32 rest) in
        match Noble.Point_fromCompressed (Z.odd y) x with
        | Ok P =>
            match Noble.toAffine P with
            | Some (x', y') =>
                if (x' =? x) && (y' =? y) then Ok P
                else Throw (Noble.libraryError "Point is not on curve")
            | None => Throw (Noble.libraryError "Point is not on curve")
            end
        | Throw e => Throw e
        end
      else Throw (Noble.libraryError "Point of length 33 or 65 expected")
  | [] => Throw (Noble.libraryError "Point of length 33 or 65 expected")
  end.


Definition fromPublicKey (key code : Buffer) : result t :=
  assert "HDNode.fromPublicKey" (length code =? 32)%nat INVALID_HDNODE
    "chainCode" ;;;
  match decodePoint key with
  | Throw _ => Throw (mkError INVALID_HDNODE "HDNode.fromPublicKey" "publicKey")
  | Ok P =>
      pub <- Noble.toRawBytes P true ;;
      Ok (mk None pub code 0 (repeat x00 4) 0)
  end.

(** Modelled from the spec: "if the high bit is set the derivation is
    hardened and requires the parent to hold a private key"; the HMAC,
    keyed by the parent chain code, runs over "(serialized parent public
    key ++ index)" or "(0x00 ++ parent private key ++ index)". *)
Definition childData (node : t) (i : Z) : result Buffer :=
  if HARDENED_OFFSET <=? i then
    match privateKey node with
    | Some k => Ok (x00 :: k ++ toBE 4 i)
    | None =>
        Throw (invalidHDNode "missing private key for hardened derivation")
    end
  else Ok (publicKey node ++ toBE 4 i).

(** Modelled from the spec: "the left 32 bytes of the output are combined
    (mod curve order, addition) with the parent private key (if present)
    to yield the child private key, or used to offset the parent public
    point (scalar multiply + point-add) for public-only derivation; the
    right 32 bytes become the child chain code.  In the vanishingly rare
    case the resulting scalar is zero or >= curve order, derivation fails
    with InvalidHDNode". *)
Definition deriveChild (node : t) (i : Z) : result t :=
  assert "HDNode.deriveChild" ((0 <=? i) && (i <? 2 ^ 32)) INVALID_HDNODE
    "index" ;;;
  data <- childData node i ;;
  let I := hmacSha512 (chainCode node) data in
  let IL := be2Z (slice I 0 32) in
  let IR := slice I 32 64 in
  if Noble.CURVE_n <=? IL then Throw (invalidHDNode "scalar >= curve order")
  else
    match privateKey node with
    | Some k =>
        let child := (IL + be2Z k) mod Noble.CURVE_n in
        if child =? 0 then Throw (invalidHDNode "scalar is zero")
        else
          pub <- Noble.getPublicKey (toBE 32 child) true ;;
          Ok (mk (Some (toBE 32 child)) pub IR (depth node + 1)
                 (fingerprint (publicKey node)) i)
    | None =>
        match decodePoint (publicKey node) with
        | Throw _ => Throw (invalidHDNode "publicKey")
        | Ok K =>
            let child := Noble.add (Noble.multiply Noble.BASE IL) K in
            match Noble.toAffine child with
            | None => Throw (invalidHDNode "scalar is zero")
            | Some _ =>
                pub <- Noble.toRawBytes child true ;;
                Ok (mk None pub IR (depth node + 1)
                       (fingerprint (publicKey node)) i)
            end
        end
    end.

(** A parsed path: the indices from the root down. *)
Fixpoint derivePath (node : t) (path : list Z) : result t :=
  match path with
  | [] => Ok node
  | i :: rest => child <- deriveChild node i ;; derivePath child rest
  end.


Variable wordlist : list string.
Variable pbkdf2 : Buffer -> Buffer -> Buffer.


End WithCollaborators.

(** A private-capable node and a public-only node that stand for one key:
    the first holds a valid private key and its curve-derived public key,
    the second holds the same public key and chain code and no private
    key. *)
Definition paired {C : Noble.Curve} (N P : t) : Prop :=
  exists k : Buffer,
    privateKey N = Some k
    /\ isValidPrivateKey k = true
    /\ Noble.getPublicKey k true = Ok (publicKey N)
    /\ publicKey P = publicKey N
    /\ chainCode P = chainCode N
    /\ privateKey P = None.

(** Two derivations agree: both fail with InvalidHDNode, or both give
    nodes that stand for one key. *)
Definition agree {C : Noble.Curve} (rN rP : result t) : Prop :=
  match rN, rP with
  | Ok c, Ok c' => paired c c'
  | Throw e, Throw e' => code e = INVALID_HDNODE /\ code e' = INVALID_HDNODE
  | _, _ => False
  end.

End HDNode.

(** ** The laws of the curve and a small model of them *)

Module CurveLaws.

(** What key derivation and signature recovery use of the group: the
    multiples of the base point add up and compose, the base point has
    order [CURVE.n], an abscissa and a parity read back as the point they
    come from, and the other parity as its opposite. *)
Class t (C : Noble.Curve) : Prop := {
  multiply_multiply : forall a b : Z,
    Noble.multiply (Noble.multiply Noble.BASE a) b
    = Noble.multiply Noble.BASE (a * b);
  lift_affine_opp : forall (a x y : Z),
    Noble.toAffine (Noble.multiply Noble.BASE a) = Some (x, y) ->
    Noble.liftX x (negb (Z.odd y)) = Some (Noble.multiply Noble.BASE (- a));
  multiply_add : forall a b : Z,
    Noble.multiply Noble.BASE (a + b)
    = Noble.add (Noble.multiply Noble.BASE a) (Noble.multiply Noble.BASE b);
  multiply_mod : forall a : Z,
    Noble.multiply Noble.BASE (a mod Noble.CURVE_n)
    = Noble.multiply Noble.BASE a;
  multiply_zero : forall a : Z,
    Noble.toAffine (Noble.multiply Noble.BASE a) = None
    <-> a mod Noble.CURVE_n = 0;
  lift_affine : forall (a x y : Z),
    Noble.toAffine (Noble.multiply Noble.BASE a) = Some (x, y) ->
    0 < x < Noble.Fp_ORDER
    /\ Noble.liftX x (Z.odd y) = Some (Noble.multiply Noble.BASE a)
}.

(** The integers modulo [CURVE.n] under addition, with generator 1: a
    group of the order of the curve in which the laws can be checked.
    The residue [P] has the ordinate [P] and shares its abscissa with its
    opposite. *)
Definition residues : Noble.Curve := {|
  Noble.point := Z;
  Noble.ZERO := 0;
  Noble.BASE := 1;
  Noble.add := fun a b => (a + b) mod Noble.CURVE_n;
  Noble.multiply := fun P k => (P * k) mod Noble.CURVE_n;
  Noble.toAffine := fun P =>
    if P =? 0 then None else Some (Z.min P (Noble.CURVE_n - P), P);
  Noble.liftX := fun x odd =>
    Some (if Bool.eqb (Z.odd x) odd then x else Noble.CURVE_n - x)
|}.

End CurveLaws.

(** ** Sample inputs *)

Module Samples.

(** A stand-in for HMAC-SHA512 with 64 bytes of output, built from
    SHA-256; the derivation theorems hold for any such function. *)
Definition hmac64 (key data : Buffer) : Buffer :=
  Sha256.hmac key data ++ Sha256.hmac data key.

Definition fingerprint4 (publicKey : Buffer) : Buffer :=
  firstn 4 (Sha256.sha256 publicKey).

(** The private-capable node of the key 1 in the residue model, where
    the multiple of the base point by 1 has coordinates (1, 1). *)
Definition residueRoot : HDNode.t :=
  HDNode.mk (Some (toBE 32 1)) (x03 :: toBE 32 1) (repeat x00 32) 0
            (repeat x00 4) 0.

(** The private-capable node of the key 1 on secp256k1. *)
(** The hash and the key of the usual RFC 6979 test vector for secp256k1:
    SHA-256 of "Satoshi Nakamoto", private key 1. *)
Definition vectorHash : Buffer :=
  Sha256.sha256 (list_byte_of_string "Satoshi Nakamoto").

Definition vectorKey : Buffer := toBE 32 1.

Definition vectorSignature : Noble.Signature :=
  Noble.mkSignature
    0x934b1ea10a4b3c1757e2b0c017d0b6143ce3c9a7e6a4a49860d7a6ab210ee3d8
    0x2442ce9d2b916064108014783e923ec36b49743e2ffa1c4496f01a512aafd9e5
    (Some 1).

Definition vectorBytes : Buffer :=
  toBE 32 (Noble.r vectorSignature) ++ toBE 32 (Noble.s vectorSignature)
  ++ [x01].



Definition curveRoot : HDNode.t :=
  HDNode.mk (Some (toBE 32 1)) (x02 :: toBE 32 Weierstrass.Gx)
            (repeat x00 32) 0 (repeat x00 4) 0.

End Samples.

(* ================================================================== *)
(** * Part II: properties *)
(* ================================================================== *)

(** ** Big-endian arithmetic *)

Section ByteFacts.

Lemma u8_range (b : byte) : 0 <= u8 b < 256.
Proof.
  unfold u8. pose proof (Byte.to_N_bounded b). lia.
Qed.

Lemma u8_inj (a b : byte) : u8 a = u8 b -> a = b.
Proof.
  unfold u8. intros H. apply N2Z.inj in H.
  pose proof (Byte.of_to_N a) as Ha. rewrite H, Byte.of_to_N in Ha.
  congruence.
Qed.

Lemma u8_byte_of_Z (z : Z) : u8 (byte_of_Z z) = z mod 256.
Proof.
  unfold byte_of_Z, u8.
  assert (Hr : 0 <= z mod 256 < 256) by (apply Z.mod_pos_bound; lia).
  destruct (Byte.of_N (Z.to_N (z mod 256))) as [b|] eqn:E.
  - apply Byte.to_of_N in E. rewrite E. lia.
  - apply Byte.of_N_None_iff in E. lia.
Qed.

Lemma byte_of_Z_u8 (b : byte) : byte_of_Z (u8 b) = b.
Proof.
  apply u8_inj. rewrite u8_byte_of_Z.
  apply Z.mod_small, u8_range.
Qed.

Lemma be2Z_from (bs : Buffer) (acc : Z) :
  fold_left (fun a b => a * 256 + u8 b) bs acc
  = acc * 256 ^ Z.of_nat (length bs) + be2Z bs.
Proof.
  unfold be2Z. revert acc.
  induction bs as [|b bs IH]; intros acc.
  - simpl. lia.
  - cbn [fold_left length]. rewrite IH, (IH (0 * 256 + u8 b)).
    rewrite Nat2Z.inj_succ, Z.pow_succ_r by lia. ring.
Qed.

Lemma be2Z_cons (b : byte) (bs : Buffer) :
  be2Z (b :: bs) = u8 b * 256 ^ Z.of_nat (length bs) + be2Z bs.
Proof.
  unfold be2Z at 1. cbn [fold_left]. rewrite be2Z_from. ring.
Qed.

Lemma be2Z_range (bs : Buffer) : 0 <= be2Z bs < 256 ^ Z.of_nat (length bs).
Proof.
  induction bs as [|b bs IH].
  - cbn. lia.
  - rewrite be2Z_cons. cbn [length].
    rewrite Nat2Z.inj_succ, Z.pow_succ_r by lia.
    pose proof (u8_range b). nia.
Qed.

Lemma toBE_length (len : nat) (z : Z) : length (toBE len z) = len.
Proof. induction len; simpl; congruence. Qed.

Lemma be2Z_toBE (len : nat) (z : Z) :
  be2Z (toBE len z) = z mod 256 ^ Z.of_nat len.
Proof.
  induction len as [|l IH].
  - cbn. now rewrite Z.mod_1_r.
  - cbn [toBE]. rewrite be2Z_cons, toBE_length, IH, u8_byte_of_Z.
    rewrite Nat2Z.inj_succ, Z.pow_succ_r by lia.
    assert (Hp : 0 < 256 ^ Z.of_nat l) by (apply Z.pow_pos_nonneg; lia).
    rewrite (Z.mul_comm 256), Z.rem_mul_r by lia. ring.
Qed.

Lemma be2Z_toBE_small (len : nat) (z : Z) :
  0 <= z < 256 ^ Z.of_nat len -> be2Z (toBE len z) = z.
Proof. intros H. rewrite be2Z_toBE. now apply Z.mod_small. Qed.

Lemma Buffer_equals_eq (a b : Buffer) : Buffer_equals a b = true <-> a = b.
Proof.
  revert b. induction a as [|x a IH]; intros [|y b]; cbn; try easy.
  rewrite andb_true_iff, IH. split.
  - intros [E ->]. apply Byte.byte_dec_bl in E. now subst.
  - intros E. inversion E. split; [now apply Byte.byte_dec_lb | reflexivity].
Qed.

Lemma be2Z_zero_iff (bs : Buffer) :
  be2Z bs = 0 <-> bs = repeat x00 (length bs).
Proof.
  induction bs as [|b bs IH].
  - now cbn.
  - rewrite be2Z_cons. cbn [length repeat].
    pose proof (be2Z_range bs) as Hr. pose proof (u8_range b) as Hb.
    assert (Hp : 0 < 256 ^ Z.of_nat (length bs)) by (apply Z.pow_pos_nonneg; lia).
    split.
    + intros H. assert (u8 b = 0) by nia. assert (be2Z bs = 0) by nia.
      f_equal; [now apply u8_inj | now apply IH].
    + intros E. inversion E as [[Eb Ebs]]. rewrite <- Ebs.
      apply IH in Ebs. rewrite Ebs. now cbn.
Qed.

(** On buffers of one length [compare] is the numeric order of the
    big-endian values. *)
Lemma Buffer_compare_lt (a b : Buffer) :
  length a = length b ->
  (Buffer_compare a b < 0 <-> be2Z a < be2Z b).
Proof.
  revert b. induction a as [|x a IH]; intros [|y b] Hlen; try discriminate.
  - cbn. lia.
  - injection Hlen as Hlen. cbn [Buffer_compare]. rewrite !be2Z_cons, <- Hlen.
    pose proof (be2Z_range a) as Ha. pose proof (be2Z_range b) as Hb.
    rewrite <- Hlen in Hb. specialize (IH b Hlen).
    assert (Hp : 0 < 256 ^ Z.of_nat (length a)) by (apply Z.pow_pos_nonneg; lia).
    destruct (Z.ltb_spec (u8 x) (u8 y)); [split; [nia | lia]|].
    destruct (Z.ltb_spec (u8 y) (u8 x)); [split; [lia | nia]|].
    assert (u8 x = u8 y) as -> by lia. rewrite IH. lia.
Qed.

End ByteFacts.

(** ** Private-key validity *)

Section KeyValidity.

Lemma PRIVATE_KEY_MAX_VALUE_is_order :
  length PRIVATE_KEY_MAX_VALUE = 32%nat
  /\ be2Z PRIVATE_KEY_MAX_VALUE = curveOrder.
Proof. split; vm_compute; reflexivity. Qed.

Lemma isValidPrivateKey_iff (k : Buffer) :
  isValidPrivateKey k = true
  <-> length k = 32%nat /\ 0 < be2Z k < curveOrder.
Proof.
  destruct PRIVATE_KEY_MAX_VALUE_is_order as [Hlen Hval].
  unfold isValidPrivateKey, ZERO_BUFFER.
  rewrite !andb_true_iff, negb_true_iff, Nat.eqb_eq, Z.ltb_lt.
  split.
  - intros [[Hk Hz] Hc].
    apply Buffer_compare_lt in Hc; [|congruence].
    split; [assumption|]. rewrite Hval in Hc. split; [|assumption].
    pose proof (be2Z_range k) as Hr.
    destruct (Z.eq_dec (be2Z k) 0) as [E|]; [|lia].
    apply be2Z_zero_iff in E. rewrite Hk in E.
    apply Buffer_equals_eq in E. congruence.
  - intros [Hk [Hpos Hlt]]. repeat split.
    + assumption.
    + destruct (Buffer_equals k (repeat x00 32)) eqn:E; [|reflexivity].
      apply Buffer_equals_eq in E. rewrite <- Hk in E.
      apply be2Z_zero_iff in E. lia.
    + apply Buffer_compare_lt; [congruence|]. now rewrite Hval.
Qed.

(** C2. [isValidPrivateKey] rejects the all-zero 32-byte key, accepts the
    32-byte big-endian encodings of 1 and of the curve order minus one,
    rejects the encoding of the curve order and every input of 31 or 33
    bytes; it holds exactly of the 32-byte keys whose big-endian value
    lies strictly between 0 and the curve order. *)
Theorem isValidPrivateKey_boundary :
  isValidPrivateKey (ZERO_BUFFER 32) = false
  /\ isValidPrivateKey (toBE 32 1) = true
  /\ isValidPrivateKey (toBE 32 (curveOrder - 1)) = true
  /\ isValidPrivateKey (toBE 32 curveOrder) = false
  /\ (forall k : Buffer,
        length k = 31%nat \/ length k = 33%nat -> isValidPrivateKey k = false)
  /\ (forall k : Buffer,
        isValidPrivateKey k = true
        <-> length k = 32%nat /\ 0 < be2Z k < curveOrder).
Proof.
  split; [vm_compute; reflexivity|].
  split; [vm_compute; reflexivity|].
  split; [vm_compute; reflexivity|].
  split; [vm_compute; reflexivity|].
  split.
  - intros k Hk. destruct (isValidPrivateKey k) eqn:E; [|reflexivity].
    apply isValidPrivateKey_iff in E. lia.
  - exact isValidPrivateKey_iff.
Qed.

(** The boundary theorem read at a 33-byte key and at the key 2. *)
Lemma isValidPrivateKey_boundary_witness :
  isValidPrivateKey (ZERO_BUFFER 33) = false
  /\ (length (toBE 32 2) = 32%nat /\ 0 < be2Z (toBE 32 2) < curveOrder).
Proof.
  destruct isValidPrivateKey_boundary as (_ & _ & _ & _ & Hlen & Hiff).
  split.
  - apply Hlen. right. reflexivity.
  - apply Hiff. vm_compute. reflexivity.
Defined.

End KeyValidity.

(** ** The eager checks of [derivePublicKey], [sign] and [recover] *)

Section EagerChecks.

Import secp256k1.

Context {C : Noble.Curve} {D : Noble.Drbg}.

Lemma assert_true (m : string) (ec : ErrorCode) (msg : string) :
  assert m true ec msg = Ok tt.
Proof. reflexivity. Qed.

Lemma assert_false (m : string) (ec : ErrorCode) (msg : string) :
  assert m false ec msg = Throw (mkError ec m msg).
Proof. reflexivity. Qed.

Lemma throws_Throw {A : Type} (e : SdkError) :
  throws (@Throw A e) (code e).
Proof. now exists e. Qed.

Lemma isValidMessageHash_iff (h : Buffer) :
  isValidMessageHash h = true <-> length h = 32%nat.
Proof. unfold isValidMessageHash. apply Nat.eqb_eq. Qed.

Lemma isValidMessageHash_false (h : Buffer) :
  length h <> 32%nat -> isValidMessageHash h = false.
Proof. unfold isValidMessageHash. apply Nat.eqb_neq. Qed.

Lemma isWithinCurveOrder_iff (z : Z) :
  Noble.isWithinCurveOrder z = true <-> 0 < z < Noble.CURVE_n.
Proof.
  unfold Noble.isWithinCurveOrder. rewrite andb_true_iff, !Z.ltb_lt. tauto.
Qed.

(** A key the SDK accepts is a scalar the library accepts. *)
Lemma normPrivateKeyToScalar_valid (k : Buffer) :
  isValidPrivateKey k = true ->
  Noble.normPrivateKeyToScalar k = Ok (be2Z k).
Proof.
  intros H. apply isValidPrivateKey_iff in H. destruct H as [Hl Hr].
  unfold Noble.normPrivateKeyToScalar.
  rewrite Hl. cbn [Nat.eqb negb].
  replace (Noble.isWithinCurveOrder (be2Z k)) with true; [reflexivity|].
  symmetry. now apply isWithinCurveOrder_iff.
Qed.

Lemma toRawBytes_shape (P : Noble.point) (isCompressed : bool) (x y : Z) :
  Noble.toAffine P = Some (x, y) ->
  Noble.toRawBytes P isCompressed
  = Ok (if isCompressed
        then byte_of_Z (if Z.even y then 2 else 3) :: toBE 32 x
        else byte_of_Z 4 :: toBE 32 x ++ toBE 32 y).
Proof.
  intros H. unfold Noble.toRawBytes. rewrite H. now destruct isCompressed.
Qed.

(** C6. [derivePublicKey] fails with InvalidPrivateKey on every key that
    [isValidPrivateKey] rejects; on a valid key [k], where the library's
    scalar multiple of the base point by [k] is the point [(x, y)], it
    returns 33 bytes, 0x02 or 0x03 by the parity of [y] followed by [x],
    when the flag is true or left out, and 65 bytes, 0x04 followed by
    [x] and [y], when it is false.  Were the multiple the point at
    infinity, which the order of the base point excludes, the library's
    error would come out. *)
Theorem derivePublicKey_encoding (k : Buffer) (isCompressed : option bool) :
  (isValidPrivateKey k = false ->
   throws (derivePublicKey k isCompressed) INVALID_SECP256K1_PRIVATE_KEY)
  /\ (isValidPrivateKey k = true ->
      forall x y : Z,
        Noble.toAffine (Noble.multiply Noble.BASE (be2Z k)) = Some (x, y) ->
        exists out : Buffer,
          derivePublicKey k isCompressed = Ok out
          /\ (if orDefault true isCompressed
              then length out = 33%nat
                   /\ out = byte_of_Z (if Z.even y then 2 else 3) :: toBE 32 x
                   /\ (u8 (hd x00 out) = 2 \/ u8 (hd x00 out) = 3)
              else length out = 65%nat
                   /\ out = byte_of_Z 4 :: toBE 32 x ++ toBE 32 y
                   /\ u8 (hd x00 out) = 4))
  /\ (isValidPrivateKey k = true ->
      Noble.toAffine (Noble.multiply Noble.BASE (be2Z k)) = None ->
      throws (derivePublicKey k isCompressed) LibraryError).
Proof.
  unfold derivePublicKey, assertIsValidPrivateKey. cbv zeta.
  split; [|split].
  - intros ->. rewrite assert_false. cbn [bind]. apply throws_Throw.
  - intros Hk x y Hxy. rewrite Hk, assert_true. cbn [bind].
    unfold Noble.getPublicKey.
    rewrite (normPrivateKeyToScalar_valid k Hk). cbn [bind].
    rewrite (toRawBytes_shape _ _ x y Hxy).
    eexists. split; [reflexivity|].
    destruct (orDefault true isCompressed).
    + split; [cbn [length]; now rewrite toBE_length|].
      split; [reflexivity|]. cbn [hd].
      destruct (Z.even y); [left | right]; reflexivity.
    + split; [cbn [length]; now rewrite length_app, !toBE_length|].
      split; reflexivity.
  - intros Hk Hz. rewrite Hk, assert_true. cbn [bind].
    unfold Noble.getPublicKey.
    rewrite (normPrivateKeyToScalar_valid k Hk). cbn [bind].
    unfold Noble.toRawBytes. rewrite Hz. apply throws_Throw.
Qed.

(** *** Signing *)

Lemma land_1_cases (z : Z) : Z.land z 1 = 0 \/ Z.land z 1 = 1.
Proof.
  assert (E : Z.land z 1 = z mod 2) by (apply (Z.land_ones z 1); lia).
  pose proof (Z.mod_pos_bound z 2). lia.
Qed.

Lemma curveOrder_pos : 0 < Noble.CURVE_n < 2 ^ 256.
Proof. unfold Noble.CURVE_n, curveOrder. lia. Qed.

Lemma modN_range (a : Z) : 0 <= Noble.modN a < Noble.CURVE_n.
Proof.
  unfold Noble.modN. apply Z.mod_pos_bound. apply curveOrder_pos.
Qed.

(** What [k2sig] returns: r and s inside ]0, n[, a recovery id in 0..3. *)
Lemma k2sig_range (m d k : Z) (sg : Noble.Signature) :
  Noble.k2sig m d k = Some sg ->
  0 < Noble.r sg < Noble.CURVE_n
  /\ 0 < Noble.s sg < Noble.CURVE_n
  /\ exists v, Noble.recovery sg = Some v /\ 0 <= v <= 3.
Proof.
  unfold Noble.k2sig.
  destruct (negb (Noble.isWithinCurveOrder k)); [discriminate|].
  destruct (Noble.toAffine (Noble.multiply Noble.BASE k)) as [[qx qy]|];
    [|discriminate].
  destruct (Z.eqb_spec (Noble.modN qx) 0) as [|Hr]; [discriminate|].
  set (s0 := Noble.modN (Noble.invN k * Noble.modN (m + Noble.modN qx * d))).
  destruct (Z.eqb_spec s0 0) as [|Hs]; [discriminate|].
  pose proof (modN_range qx) as Rr.
  assert (Rs : 0 <= s0 < Noble.CURVE_n) by apply modN_range.
  assert (Hrec : 0 <= Z.lor (if qx =? Noble.modN qx then 0 else 2) (Z.land qy 1) <= 3
                 /\ 0 <= Z.lxor (Z.lor (if qx =? Noble.modN qx then 0 else 2)
                                        (Z.land qy 1)) 1 <= 3).
  { destruct (land_1_cases qy) as [-> | ->];
      destruct (qx =? Noble.modN qx); cbn; lia. }
  destruct (Noble.isBiggerThanHalfOrder s0); intros E; injection E as <-;
    cbn [Noble.r Noble.s Noble.recovery].
  - split; [lia|]. split.
    + unfold Noble.modN.
      rewrite Z.mod_opp_l_nz by (try rewrite Z.mod_small; lia).
      rewrite Z.mod_small by lia. lia.
    + eexists. split; [reflexivity|]. apply Hrec.
  - split; [lia|]. split; [lia|].
    eexists. split; [reflexivity|]. apply Hrec.
Qed.

Lemma genUntil_k2sig (seed : Buffer) (m d : Z) (fuel i : nat) (sg : Noble.Signature) :
  Noble.genUntil seed m d i fuel = Some sg ->
  exists j : nat, Noble.k2sig m d (Noble.bits2int (Noble.candidate seed j)) = Some sg.
Proof.
  revert i. induction fuel as [|fuel IH]; intros i; cbn [Noble.genUntil].
  - discriminate.
  - destruct (Noble.k2sig m d (Noble.bits2int (Noble.candidate seed i))) eqn:E.
    + intros [= <-]. now exists i.
    + apply IH.
Qed.

Lemma sign_range (h k : Buffer) (sg : Noble.Signature) :
  Noble.sign h k = Ok sg ->
  0 < Noble.r sg < Noble.CURVE_n
  /\ 0 < Noble.s sg < Noble.CURVE_n
  /\ exists v, Noble.recovery sg = Some v /\ 0 <= v <= 3.
Proof.
  unfold Noble.sign.
  destruct (Noble.normPrivateKeyToScalar k) as [d|]; cbn [bind]; [|discriminate].
  destruct (Noble.genUntil _ _ _ _ _) as [sg'|] eqn:E; [|discriminate].
  intros [= <-]. apply genUntil_k2sig in E. destruct E as [j E].
  exact (k2sig_range _ _ _ _ E).
Qed.

Lemma BN_toArray_be_small (z : Z) (len : nat) :
  0 <= z < 256 ^ Z.of_nat len -> BN_toArray_be z len = Ok (toBE len z).
Proof.
  intros H. unfold BN_toArray_be. rewrite Z.abs_eq by lia.
  destruct (Z.ltb_spec z (256 ^ Z.of_nat len)); [reflexivity | lia].
Qed.

Lemma slice_head (a b : Buffer) (n : nat) :
  length a = n -> slice (a ++ b) 0 n = a.
Proof.
  intros <-. unfold slice. cbn [skipn]. rewrite Nat.sub_0_r.
  rewrite firstn_app, Nat.sub_diag, firstn_all. cbn. apply app_nil_r.
Qed.

Lemma slice_middle (a b c : Buffer) (n m : nat) :
  length a = n -> length b = (m - n)%nat -> slice (a ++ b ++ c) n m = b.
Proof.
  intros <- Hb. unfold slice.
  rewrite skipn_app, skipn_all, Nat.sub_diag. cbn [skipn app].
  rewrite <- Hb, firstn_app, Nat.sub_diag, firstn_all. cbn. apply app_nil_r.
Qed.

Lemma nth_error_tail (a b : Buffer) (x : byte) (n : nat) :
  length (a ++ b) = n -> nth_error (a ++ b ++ [x]) n = Some x.
Proof.
  intros <-. rewrite app_assoc, nth_error_app2 by lia.
  now rewrite Nat.sub_diag.
Qed.

(** The bytes [sign] makes of the library's signature. *)
Lemma sign_bytes (h k : Buffer) (sg : Noble.Signature) :
  length h = 32%nat -> isValidPrivateKey k = true ->
  Noble.sign h k = Ok sg ->
  exists v : Z,
    Noble.recovery sg = Some v /\ 0 <= v <= 3
    /\ sign h k
       = Ok (toBE 32 (Noble.r sg) ++ toBE 32 (Noble.s sg) ++ [byte_of_Z v]).
Proof.
  intros Hh Hk Hsg. apply isValidMessageHash_iff in Hh.
  unfold sign, assertIsValidSecp256k1MessageHash, assertIsValidPrivateKey.
  rewrite Hh, Hk, !assert_true, Hsg. cbn [bind].
  destruct (sign_range h k sg Hsg) as (Hr & Hs & v & Hv & Hv3).
  pose proof curveOrder_pos as Hn.
  change (2 ^ 256) with (256 ^ Z.of_nat 32) in Hn.
  rewrite !BN_toArray_be_small by lia. cbn [bind]. rewrite Hv.
  exists v. split; [reflexivity|]. split; [lia | reflexivity].
Qed.

(** C4. [sign] fails with InvalidMessageHash on every hash that is not 32
    bytes long; on a 32-byte hash it fails with InvalidPrivateKey on every
    key [isValidPrivateKey] rejects; on valid inputs, with [sg] the
    signature the library computes, it returns 65 bytes: [r] big-endian on
    32 bytes, [s] big-endian on 32 bytes, then the recovery id on one
    byte.  The library computes none only when its generator has
    proposed 1000 nonces in vain. *)
Theorem sign_layout (h k : Buffer) :
  (length h <> 32%nat ->
   throws (sign h k) INVALID_SECP256k1_MESSAGE_HASH)
  /\ (length h = 32%nat -> isValidPrivateKey k = false ->
      throws (sign h k) INVALID_SECP256K1_PRIVATE_KEY)
  /\ (length h = 32%nat -> isValidPrivateKey k = true ->
      forall sg : Noble.Signature,
        Noble.sign h k = Ok sg ->
        exists (v : Z) (out : Buffer),
          Noble.recovery sg = Some v /\ 0 <= v <= 3
          /\ sign h k = Ok out
          /\ length out = 65%nat
          /\ out = toBE 32 (Noble.r sg) ++ toBE 32 (Noble.s sg) ++ [byte_of_Z v]
          /\ be2Z (slice out 0 32) = Noble.r sg
          /\ be2Z (slice out 32 64) = Noble.s sg
          /\ option_map u8 (nth_error out 64) = Some v)
  /\ (length h = 32%nat -> isValidPrivateKey k = true ->
      forall e : SdkError,
        Noble.sign h k = Throw e ->
        Noble.genUntil (toBE 32 (be2Z k) ++ toBE 32 (Noble.bits2int_modN h))
          (Noble.bits2int_modN h) (be2Z k) 0 1000 = None
        /\ throws (sign h k) LibraryError).
Proof.
  split; [|split; [|split]].
  - intros Hh.
    unfold sign, assertIsValidSecp256k1MessageHash.
    rewrite (isValidMessageHash_false h Hh), assert_false.
    cbn [bind]. apply throws_Throw.
  - intros Hh Hk. apply isValidMessageHash_iff in Hh.
    unfold sign, assertIsValidSecp256k1MessageHash, assertIsValidPrivateKey.
    rewrite Hh, Hk, assert_true, assert_false. cbn [bind]. apply throws_Throw.
  - intros Hh Hk sg Hsg.
    destruct (sign_range h k sg Hsg) as (Hr & Hs & _).
    destruct (sign_bytes h k sg Hh Hk Hsg) as (v & Hv & Hv3 & Hout).
    pose proof curveOrder_pos as Hn.
    change (2 ^ 256) with (256 ^ Z.of_nat 32) in Hn.
    rewrite Hout. exists v. eexists.
    split; [exact Hv|]. split; [lia|]. split; [reflexivity|].
    split; [|split; [reflexivity|split; [|split]]].
    + rewrite !length_app, !toBE_length. reflexivity.
    + rewrite slice_head by apply toBE_length. apply be2Z_toBE_small. lia.
    + rewrite slice_middle by apply toBE_length. apply be2Z_toBE_small. lia.
    + rewrite nth_error_tail by (rewrite length_app, !toBE_length; reflexivity).
      cbn [option_map]. rewrite u8_byte_of_Z. f_equal. apply Z.mod_small. lia.
  - intros Hh Hk e He. apply isValidMessageHash_iff in Hh.
    unfold sign, assertIsValidSecp256k1MessageHash, assertIsValidPrivateKey.
    rewrite Hh, Hk, !assert_true, He. cbn [bind].
    unfold Noble.sign in He.
    rewrite (normPrivateKeyToScalar_valid k Hk) in He. cbn [bind] in He.
    destruct (Noble.genUntil _ _ _ _ _) as [sg|]; [discriminate|].
    split; [reflexivity|]. injection He as <-. apply throws_Throw.
Qed.

(** *** Recovery *)

Lemma toRawBytes_Ok (P : Noble.point) (out : Buffer) :
  Noble.toRawBytes P false = Ok out ->
  length out = 65%nat /\ option_map u8 (nth_error out 0) = Some 4.
Proof.
  unfold Noble.toRawBytes.
  destruct (Noble.toAffine P) as [[x y]|]; [|discriminate].
  intros E.
  assert (out = byte_of_Z 4 :: toBE 32 x ++ toBE 32 y) as -> by congruence.
  split.
  - cbn [length]. now rewrite length_app, !toBE_length.
  - reflexivity.
Qed.

Lemma toRawBytes_Throw (P : Noble.point) (c : bool) (e : SdkError) :
  Noble.toRawBytes P c = Throw e -> code e = LibraryError.
Proof.
  unfold Noble.toRawBytes.
  destruct (Noble.toAffine P) as [[x y]|]; [destruct c; discriminate|].
  now intros [= <-].
Qed.

Lemma Signature_fromCompact_Throw (hex : Buffer) (e : SdkError) :
  Noble.Signature_fromCompact hex = Throw e -> code e = LibraryError.
Proof.
  unfold Noble.Signature_fromCompact.
  repeat match goal with
         | |- context [if ?b then _ else _] => destruct b
         end; try discriminate; now intros [= <-].
Qed.

Lemma Point_fromCompressed_Throw (odd : bool) (x : Z) (e : SdkError) :
  Noble.Point_fromCompressed odd x = Throw e -> code e = LibraryError.
Proof.
  unfold Noble.Point_fromCompressed.
  destruct (negb _); [now intros [= <-]|].
  destruct (Noble.liftX x odd); [discriminate | now intros [= <-]].
Qed.

Lemma recoverPublicKey_Throw (sg : Noble.Signature) (h : Buffer) (e : SdkError) :
  Noble.recoverPublicKey sg h = Throw e -> code e = LibraryError.
Proof.
  unfold Noble.recoverPublicKey.
  destruct (Noble.recovery sg) as [rec|]; [|now intros [= <-]].
  destruct (negb _); [now intros [= <-]|].
  destruct (_ <=? _); [now intros [= <-]|].
  destruct (Noble.Point_fromCompressed _ _) as [R|e'] eqn:ER; cbn [bind].
  - destruct (Noble.toAffine _); [discriminate | now intros [= <-]].
  - intros [= <-]. eapply Point_fromCompressed_Throw, ER.
Qed.

(** Past its three checks [recover] is the library's pipeline. *)
Lemma recover_after_checks (h sig : Buffer) :
  length h = 32%nat -> length sig = 65%nat ->
  u8 (nth 64 sig x00) = 0 \/ u8 (nth 64 sig x00) = 1 ->
  recover h sig
  = (sg <- Noble.Signature_fromCompact (slice sig 0 64) ;;
     Q <- Noble.recoverPublicKey
            (Noble.addRecoveryBit sg (Some (u8 (nth 64 sig x00)))) h ;;
     Noble.toRawBytes Q false).
Proof.
  intros Hh Hs H01. apply isValidMessageHash_iff in Hh.
  assert (Hn : nth_error sig 64 = Some (nth 64 sig x00))
    by (apply nth_error_nth'; lia).
  apply Nat.eqb_eq in Hs.
  unfold recover, assertIsValidSecp256k1MessageHash, SIGNATURE_LENGTH.
  rewrite Hh, Hs, !assert_true, Hn. cbn [bind option_map isZeroOrOne].
  replace ((u8 (nth 64 sig x00) =? 0) || (u8 (nth 64 sig x00) =? 1)) with true
    by (symmetry; apply orb_true_iff; rewrite !Z.eqb_eq; exact H01).
  now rewrite assert_true.
Qed.

(** C3, as the code has it.  [recover] fails with InvalidMessageHash on
    every hash that is not 32 bytes long; on a 32-byte hash with
    InvalidSignature on every signature that is not 65 bytes long; on a
    32-byte hash and a 65-byte signature with InvalidSignatureRecovery
    when the byte at index 64 is neither 0 nor 1.  These outcomes do not
    depend on the curve.  Once the three checks pass, the result is that
    of the library: 65 bytes behind the prefix 0x04 when it recovers a
    point, its own error otherwise. *)
Theorem recover_checks_then_library (h sig : Buffer) :
  (length h <> 32%nat ->
   throws (recover h sig) INVALID_SECP256k1_MESSAGE_HASH)
  /\ (length h = 32%nat -> length sig <> 65%nat ->
      throws (recover h sig) INVALID_SECP256k1_SIGNATURE)
  /\ (length h = 32%nat -> length sig = 65%nat ->
      u8 (nth 64 sig x00) <> 0 -> u8 (nth 64 sig x00) <> 1 ->
      throws (recover h sig) INVALID_SECP256k1_SIGNATURE_RECOVERY)
  /\ (length h = 32%nat -> length sig = 65%nat ->
      u8 (nth 64 sig x00) = 0 \/ u8 (nth 64 sig x00) = 1 ->
      recover h sig
      = (sg <- Noble.Signature_fromCompact (slice sig 0 64) ;;
         Q <- Noble.recoverPublicKey
                (Noble.addRecoveryBit sg (Some (u8 (nth 64 sig x00)))) h ;;
         Noble.toRawBytes Q false)
      /\ ((exists out : Buffer,
             recover h sig = Ok out
             /\ length out = 65%nat
             /\ option_map u8 (nth_error out 0) = Some 4)
          \/ throws (recover h sig) LibraryError)).
Proof.
  split; [|split; [|split]].
  - intros Hh.
    unfold recover, assertIsValidSecp256k1MessageHash.
    rewrite (isValidMessageHash_false h Hh), assert_false.
    cbn [bind]. apply throws_Throw.
  - intros Hh Hs. apply isValidMessageHash_iff in Hh.
    apply Nat.eqb_neq in Hs.
    unfold recover, assertIsValidSecp256k1MessageHash, SIGNATURE_LENGTH.
    rewrite Hh, Hs, assert_true, assert_false. cbn [bind]. apply throws_Throw.
  - intros Hh Hs H0 H1. apply isValidMessageHash_iff in Hh.
    assert (Hn : nth_error sig 64 = Some (nth 64 sig x00))
      by (apply nth_error_nth'; lia).
    apply Nat.eqb_eq in Hs.
    unfold recover, assertIsValidSecp256k1MessageHash, SIGNATURE_LENGTH.
    rewrite Hh, Hs, !assert_true, Hn. cbn [bind option_map isZeroOrOne].
    apply Z.eqb_neq in H0, H1. rewrite H0, H1. cbn [orb].
    rewrite assert_false. cbn [bind]. apply throws_Throw.
  - intros Hh Hs H01.
    rewrite (recover_after_checks h sig Hh Hs H01). split; [reflexivity|].
    destruct (Noble.Signature_fromCompact (slice sig 0 64)) as [sg|e] eqn:E1;
      cbn [bind].
    + destruct (Noble.recoverPublicKey _ h) as [Q|e] eqn:E2; cbn [bind].
      * destruct (Noble.toRawBytes Q false) as [out|e] eqn:E3.
        -- left. exists out. split; [reflexivity|].
           exact (toRawBytes_Ok Q out E3).
        -- right. exists e. split; [reflexivity|].
           exact (toRawBytes_Throw Q false e E3).
      * right. exists e. split; [reflexivity|].
        exact (recoverPublicKey_Throw _ h e E2).
    + right. exists e. split; [reflexivity|].
      exact (Signature_fromCompact_Throw _ e E1).
Qed.

End EagerChecks.

(** ** The checks on the real curve *)

Module OnSecp256k1.

Import secp256k1 Samples.

(** The model of the library reproduces the published signature. *)
Lemma sign_vector : Noble.sign vectorHash vectorKey = Ok vectorSignature.
Proof. vm_compute. reflexivity. Qed.

(** On the vector, recovering from the signature gives back the
    uncompressed public key of the signing key. *)
Lemma sign_recover_vector :
  sign vectorHash vectorKey = Ok vectorBytes
  /\ recover vectorHash vectorBytes = derivePublicKey vectorKey (Some false)
  /\ derivePublicKey vectorKey (Some false)
     = Ok (x04 :: toBE 32 Weierstrass.Gx ++ toBE 32 Weierstrass.Gy).
Proof. split; [|split]; vm_compute; reflexivity. Qed.

(** [derivePublicKey_encoding] at the key 1, whose public key is the base
    point, with the flag left out. *)
Lemma derivePublicKey_encoding_witness :
  exists out : Buffer,
    derivePublicKey vectorKey None = Ok out
    /\ length out = 33%nat
    /\ out = byte_of_Z (if Z.even Weierstrass.Gy then 2 else 3)
             :: toBE 32 Weierstrass.Gx
    /\ (u8 (hd x00 out) = 2 \/ u8 (hd x00 out) = 3).
Proof.
  apply (proj1 (proj2 (derivePublicKey_encoding vectorKey None)));
    vm_compute; reflexivity.
Defined.

(** [sign_layout] at the test vector. *)
Lemma sign_layout_witness :
  exists (v : Z) (out : Buffer),
    Noble.recovery vectorSignature = Some v /\ 0 <= v <= 3
    /\ sign vectorHash vectorKey = Ok out
    /\ length out = 65%nat
    /\ out = toBE 32 (Noble.r vectorSignature)
             ++ toBE 32 (Noble.s vectorSignature) ++ [byte_of_Z v]
    /\ be2Z (slice out 0 32) = Noble.r vectorSignature
    /\ be2Z (slice out 32 64) = Noble.s vectorSignature
    /\ option_map u8 (nth_error out 64) = Some v.
Proof.
  apply (proj1 (proj2 (proj2 (sign_layout vectorHash vectorKey))));
    vm_compute; reflexivity.
Defined.

(** [recover_checks_then_library] at the signature of the test vector. *)
Lemma recover_checks_then_library_witness :
  recover vectorHash vectorBytes
  = (sg <- Noble.Signature_fromCompact (slice vectorBytes 0 64) ;;
     Q <- Noble.recoverPublicKey
            (Noble.addRecoveryBit sg (Some (u8 (nth 64 vectorBytes x00))))
            vectorHash ;;
     Noble.toRawBytes Q false)
  /\ ((exists out : Buffer,
         recover vectorHash vectorBytes = Ok out
         /\ length out = 65%nat
         /\ option_map u8 (nth_error out 0) = Some 4)
      \/ throws (recover vectorHash vectorBytes) LibraryError).
Proof.
  apply (proj2 (proj2 (proj2
           (recover_checks_then_library vectorHash vectorBytes)))).
  - vm_compute. reflexivity.
  - vm_compute. reflexivity.
  - right. vm_compute. reflexivity.
Defined.

(** The all-zero signature passes the three checks of [recover]: a
    32-byte hash, 65 bytes, recovery byte 0.  No key comes back: the
    library refuses r = 0. *)
Lemma recover_zero_signature_fails :
  length (ZERO_BUFFER 32) = 32%nat
  /\ length (ZERO_BUFFER 65) = 65%nat
  /\ u8 (nth 64 (ZERO_BUFFER 65) x00) = 0
  /\ recover (ZERO_BUFFER 32) (ZERO_BUFFER 65)
     = Throw (Noble.libraryError "r must be 0 < r < CURVE.n")
  /\ ~ returns (recover (ZERO_BUFFER 32) (ZERO_BUFFER 65)).
Proof.
  assert (E : recover (ZERO_BUFFER 32) (ZERO_BUFFER 65)
              = Throw (Noble.libraryError "r must be 0 < r < CURVE.n"))
    by (vm_compute; reflexivity).
  split; [reflexivity|]. split; [reflexivity|]. split; [reflexivity|].
  split; [exact E|].
  intros [out Hout]. rewrite E in Hout. discriminate.
Qed.

End OnSecp256k1.

(** ** Key compression *)

Section Compression.

Lemma be2Z_snoc (bs : Buffer) (b : byte) :
  be2Z (bs ++ [b]) = be2Z bs * 256 + u8 b.
Proof. unfold be2Z. now rewrite fold_left_app. Qed.

(** The bit [compressPublicKey] reads is the parity of the ordinate. *)
Lemma lastBitOf_parity (y : Buffer) :
  y <> [] -> lastBitOf y = be2Z y mod 2.
Proof.
  intros Hy. destruct (exists_last Hy) as (y' & b & ->).
  unfold lastBitOf. rewrite length_app. cbn [length].
  replace (length y' + 1 - 1)%nat with (length y') by lia.
  rewrite nth_error_app2, Nat.sub_diag by lia. cbn [nth_error].
  rewrite be2Z_snoc.
  assert (E : Z.land (u8 b) 1 = u8 b mod 2)
    by (apply (Z.land_ones (u8 b) 1); lia).
  rewrite E. replace (be2Z y' * 256) with ((be2Z y' * 128) * 2) by ring.
  now rewrite Z.add_comm, Z.mod_add by lia.
Qed.

(** C5, as the code has it.  [compressPublicKey] validates nothing and
    never fails.  An input that does not start with 0x04, the empty one
    included, comes back unchanged; an input that starts with 0x04 gives
    one prefix byte followed by its bytes 1..32; on the 65 bytes
    0x04, x, y the result is the 33-byte compressed key, 0x02 for an
    even y and 0x03 for an odd one, then x. *)
Theorem compressPublicKey_total (pk : Buffer) :
  returns (compressPublicKey pk)
  /\ (forall p rest, pk = p :: rest -> u8 p <> 4 ->
      compressPublicKey pk = Ok pk)
  /\ (pk = [] -> compressPublicKey pk = Ok [])
  /\ (forall rest, pk = x04 :: rest ->
      compressPublicKey pk
      = Ok (byte_of_Z (2 + lastBitOf (slice pk 33 65)) :: slice pk 1 33))
  /\ (forall x y, length x = 32%nat -> length y = 32%nat ->
      pk = x04 :: x ++ y ->
      compressPublicKey pk = Ok (byte_of_Z (2 + be2Z y mod 2) :: x)).
Proof.
  split; [|split; [|split; [|split]]].
  - unfold compressPublicKey, returns. destruct pk as [|p rest]; cbn.
    + now eexists.
    + destruct (u8 p =? 4); now eexists.
  - intros p rest -> Hp. unfold compressPublicKey. cbn [nth_error].
    apply Z.eqb_neq in Hp. now rewrite Hp.
  - now intros ->.
  - now intros rest ->.
  - intros x y Hx Hy ->. unfold compressPublicKey. cbn [nth_error].
    change (u8 x04 =? 4) with true. cbv iota.
    assert (S1 : slice (x04 :: x ++ y) 1 33 = x).
    { change (x04 :: x ++ y) with ([x04] ++ x ++ y).
      apply slice_middle; [reflexivity | now rewrite Hx]. }
    assert (S2 : slice (x04 :: x ++ y) 33 65 = y).
    { replace (x04 :: x ++ y) with ((x04 :: x) ++ y ++ [])
        by (now rewrite app_nil_r).
      apply slice_middle; [cbn [length]; now rewrite Hx | now rewrite Hy]. }
    rewrite S1, S2, lastBitOf_parity; [reflexivity|].
    intros ->. discriminate.
Qed.

(** [compressPublicKey_total] at the uncompressed base point. *)
Lemma compressPublicKey_total_witness :
  compressPublicKey (x04 :: toBE 32 Weierstrass.Gx ++ toBE 32 Weierstrass.Gy)
  = Ok (byte_of_Z (2 + be2Z (toBE 32 Weierstrass.Gy) mod 2)
        :: toBE 32 Weierstrass.Gx).
Proof.
  apply (proj2 (proj2 (proj2 (proj2 (compressPublicKey_total _))))).
  - apply toBE_length.
  - apply toBE_length.
  - reflexivity.
Defined.

(** Two inputs that are no point encoding and come back as values: the
    single byte 0x05, unchanged, and the single byte 0x04, as 0x02. *)
Lemma compressPublicKey_accepts_malformed :
  hasEncodingShape [x05] = false
  /\ compressPublicKey [x05] = Ok [x05]
  /\ hasEncodingShape [x04] = false
  /\ compressPublicKey [x04] = Ok [x02]
  /\ ~ (forall pk : Buffer,
          hasEncodingShape pk = false -> exists e, compressPublicKey pk = Throw e).
Proof.
  repeat split; try reflexivity.
  intros H. destruct (H [x05] eq_refl) as [e He]. discriminate.
Qed.

End Compression.

(** ** Addresses *)

Section Addresses.

Import vcdm.

Variable Exp : Type.
Variable HexInt_of : Exp -> result Hex.

Lemma ErrorInterceptor_Ok {A : Type} (msg method : string) (a : A) :
  ErrorInterceptor msg method (Ok a) = Ok a.
Proof. reflexivity. Qed.

(** [Address.of] accepts whatever [HexInt.of] reads as a non-negative
    value: the number of digits plays no part. *)
Lemma Address_of_accepts (exp : Exp) (hi : Hex) :
  HexInt_of exp = Ok hi -> POSITIVE <= sign hi ->
  Address_of Exp HexInt_of exp = Ok hi.
Proof.
  intros Hexp Hs. apply Z.leb_le in Hs.
  unfold Address_of, HexUInt_of, Address_constructor, HexUInt_constructor.
  rewrite Hexp. cbn [bind]. rewrite Hs. cbn [ErrorInterceptor bind].
  rewrite Hs. reflexivity.
Qed.

(** Every failure of [Address.of] is an [InvalidDataType]. *)
Lemma Address_of_throws (exp : Exp) (e : SdkError) :
  Address_of Exp HexInt_of exp = Throw e -> code e = INVALID_DATA_TYPE.
Proof.
  unfold Address_of, ErrorInterceptor, errorHandler.
  destruct (bind _ _) as [hi|e0]; [discriminate|].
  destruct (code e0) eqn:E; intros [= <-]; try reflexivity. exact E.
Qed.

End Addresses.

(** C9, on the code.  [Address.of('0xcaffee')] returns an address of
    three bytes, where the unit test of the repository expects
    [InvalidDataType]; the negative ['-0xcaffee'] is refused. *)
Theorem Address_of_caffee :
  vcdm.Address_of string vcdm.HexInt_of_string "0xcaffee"%string
  = Ok (vcdm.mkHex vcdm.POSITIVE "caffee")
  /\ vcdm.byteLength (vcdm.mkHex vcdm.POSITIVE "caffee") = 3%nat
  /\ throws (vcdm.Address_of string vcdm.HexInt_of_string "-0xcaffee"%string)
            INVALID_DATA_TYPE
  /\ returns (vcdm.Address_of string vcdm.HexInt_of_string
                "0xcfb79a9c950b78e14c43efa621ebcf9660dbe01f"%string).
Proof.
  split; [reflexivity|]. split; [reflexivity|]. split.
  - eexists. split; reflexivity.
  - eexists. reflexivity.
Qed.

(** ** Mnemonic validation *)

Section MnemonicValidation.

Import mnemonic.

Variable wordlist : list string.
Variable hash : Buffer -> Buffer.






End MnemonicValidation.

(** The model on the first test vector of BIP-39, the words of the
    all-zero 128-bit entropy: it is valid, and no longer so once its last
    word, which carries the checksum, is changed, or a word is dropped. *)
Lemma isValid_zero_entropy_vector :
  let wordlist := ["abandon"; "ability"; "able"; "about"]%string in
  let abandon11 := repeat "abandon"%string 11 in
  mnemonic.isValid wordlist Sha256.sha256 (abandon11 ++ ["about"%string]) = true
  /\ mnemonic.isValid wordlist Sha256.sha256 (abandon11 ++ ["able"%string])
     = false
  /\ mnemonic.isValid wordlist Sha256.sha256 abandon11 = false
  /\ mnemonic.isValid wordlist Sha256.sha256 ["hello world"%string] = false.
Proof. cbv zeta. repeat split; vm_compute; reflexivity. Qed.

(** ** Public and private derivation *)

Section ResidueModel.

Lemma residues_laws : CurveLaws.t CurveLaws.residues.
Proof.
  pose proof curveOrder_pos as Hn.
  assert (Hp : Noble.CURVE_n < Noble.Fp_ORDER)
    by (unfold Noble.CURVE_n, curveOrder, Noble.Fp_ORDER; lia).
  assert (Hodd : Z.odd Noble.CURVE_n = true) by reflexivity.
  assert (Hlift : forall P : Z, 0 < P < Noble.CURVE_n ->
            (if Bool.eqb (Z.odd (Z.min P (Noble.CURVE_n - P))) (Z.odd P)
             then Z.min P (Noble.CURVE_n - P)
             else Noble.CURVE_n - Z.min P (Noble.CURVE_n - P)) = P
            /\ (if Bool.eqb (Z.odd (Z.min P (Noble.CURVE_n - P)))
                            (negb (Z.odd P))
                then Z.min P (Noble.CURVE_n - P)
                else Noble.CURVE_n - Z.min P (Noble.CURVE_n - P))
               = Noble.CURVE_n - P).
  { intros P HP.
    destruct (Z.min_spec P (Noble.CURVE_n - P)) as [[Hlt ->] | [Hle ->]].
    - destruct (Z.odd P); cbn [Bool.eqb negb]; split; reflexivity.
    - rewrite Z.odd_sub, Hodd.
      destruct (Z.odd P); cbn [Bool.eqb negb xorb]; split; lia. }
  constructor;
    cbn [Noble.multiply Noble.BASE Noble.add Noble.toAffine Noble.liftX
         CurveLaws.residues].
  - intros a b. rewrite !Z.mul_1_l. apply Z.mul_mod_idemp_l. lia.
  - intros a x y. rewrite !Z.mul_1_l.
    destruct (Z.eqb_spec (a mod Noble.CURVE_n) 0) as [|Hne]; [discriminate|].
    intros E.
    assert (Ex : x = Z.min (a mod Noble.CURVE_n)
                       (Noble.CURVE_n - a mod Noble.CURVE_n)) by congruence.
    assert (Ey : y = a mod Noble.CURVE_n) by congruence.
    rewrite Ex, Ey. pose proof (Z.mod_pos_bound a Noble.CURVE_n).
    rewrite Z.mod_opp_l_nz by lia. apply f_equal.
    apply (proj2 (Hlift (a mod Noble.CURVE_n) ltac:(lia))).
  - intros a b. rewrite !Z.mul_1_l. apply Z.add_mod. lia.
  - intros a. rewrite !Z.mul_1_l. apply Z.mod_mod. lia.
  - intros a. rewrite Z.mul_1_l.
    destruct (Z.eqb_spec (a mod Noble.CURVE_n) 0); split;
      congruence || discriminate.
  - intros a x y. rewrite Z.mul_1_l.
    destruct (Z.eqb_spec (a mod Noble.CURVE_n) 0) as [|Hne]; [discriminate|].
    intros E.
    assert (Ex : x = Z.min (a mod Noble.CURVE_n)
                       (Noble.CURVE_n - a mod Noble.CURVE_n)) by congruence.
    assert (Ey : y = a mod Noble.CURVE_n) by congruence.
    rewrite Ex, Ey. pose proof (Z.mod_pos_bound a Noble.CURVE_n).
    split; [lia|]. apply f_equal.
    apply (proj1 (Hlift (a mod Noble.CURVE_n) ltac:(lia))).
Qed.

End ResidueModel.

Section PublicDerivation.

Import HDNode.

Context {C : Noble.Curve} {L : CurveLaws.t C}.

Variable hmacSha512 : Buffer -> Buffer -> Buffer.
Variable fingerprint : Buffer -> Buffer.

Lemma Fp_ORDER_bound : Noble.Fp_ORDER < 256 ^ Z.of_nat 32.
Proof. unfold Noble.Fp_ORDER. cbn. lia. Qed.

Lemma getPublicKey_valid_any (k : Buffer) (isCompressed : bool) :
  isValidPrivateKey k = true ->
  Noble.getPublicKey k isCompressed
  = Noble.toRawBytes (Noble.multiply Noble.BASE (be2Z k)) isCompressed.
Proof.
  intros Hk. unfold Noble.getPublicKey.
  now rewrite (normPrivateKeyToScalar_valid k Hk).
Qed.

Lemma getPublicKey_valid (k : Buffer) :
  isValidPrivateKey k = true ->
  Noble.getPublicKey k true
  = Noble.toRawBytes (Noble.multiply Noble.BASE (be2Z k)) true.
Proof. apply getPublicKey_valid_any. Qed.

(** On a curve whose base point has order [CURVE.n], [derivePublicKey]
    returns on every valid key. *)
Lemma derivePublicKey_returns (k : Buffer) (isCompressed : option bool) :
  isValidPrivateKey k = true ->
  returns (secp256k1.derivePublicKey k isCompressed).
Proof.
  intros Hk.
  destruct (Noble.toAffine (Noble.multiply Noble.BASE (be2Z k)))
    as [[x y]|] eqn:E.
  - unfold secp256k1.derivePublicKey, assertIsValidPrivateKey. cbv zeta.
    rewrite Hk, assert_true. cbn [bind].
    rewrite (getPublicKey_valid_any k _ Hk).
    rewrite (toRawBytes_shape _ _ x y E). now eexists.
  - apply CurveLaws.multiply_zero in E.
    apply isValidPrivateKey_iff in Hk. destruct Hk as [_ Hr].
    unfold Noble.CURVE_n in E. rewrite Z.mod_small in E by lia. lia.
Qed.

(** A compressed key reads back as the multiple it encodes. *)
Lemma decodePoint_compressed (a x y : Z) :
  Noble.toAffine (Noble.multiply Noble.BASE a) = Some (x, y) ->
  decodePoint (byte_of_Z (if Z.even y then 2 else 3) :: toBE 32 x)
  = Ok (Noble.multiply Noble.BASE a).
Proof.
  intros Hxy. destruct (CurveLaws.lift_affine a x y Hxy) as [Hx Hl].
  pose proof Fp_ORDER_bound as Hb.
  unfold decodePoint. rewrite toBE_length. cbn [Nat.eqb andb].
  assert (Hp : (u8 (byte_of_Z (if Z.even y then 2 else 3)) =? 2)
               || (u8 (byte_of_Z (if Z.even y then 2 else 3)) =? 3) = true)
    by (destruct (Z.even y); reflexivity).
  rewrite Hp.
  assert (Ho : (u8 (byte_of_Z (if Z.even y then 2 else 3)) =? 3) = Z.odd y)
    by (rewrite <- Z.negb_even; destruct (Z.even y); reflexivity).
  rewrite Ho, be2Z_toBE_small by lia.
  unfold Noble.Point_fromCompressed.
  replace ((0 <? x) && (x <? Noble.Fp_ORDER)) with true
    by (symmetry; apply andb_true_iff; rewrite !Z.ltb_lt; lia).
  cbn [negb]. now rewrite Hl.
Qed.

(** What a well-formed private-capable node holds. *)
Lemma paired_affine (N P : t) :
  paired N P ->
  exists (k : Buffer) (x y : Z),
    privateKey N = Some k
    /\ 0 < be2Z k < Noble.CURVE_n
    /\ Noble.toAffine (Noble.multiply Noble.BASE (be2Z k)) = Some (x, y)
    /\ publicKey N = byte_of_Z (if Z.even y then 2 else 3) :: toBE 32 x
    /\ publicKey P = publicKey N
    /\ chainCode P = chainCode N
    /\ privateKey P = None.
Proof.
  intros (k & Hk & Hv & Hpub & HP & HC & HN).
  rewrite (getPublicKey_valid k Hv) in Hpub.
  apply isValidPrivateKey_iff in Hv. destruct Hv as [_ Hr].
  unfold Noble.toRawBytes in Hpub.
  destruct (Noble.toAffine (Noble.multiply Noble.BASE (be2Z k)))
    as [[x y]|] eqn:E; [|discriminate].
  exists k, x, y.
  assert (Hpub' : publicKey N
                  = byte_of_Z (if Z.even y then 2 else 3) :: toBE 32 x)
    by congruence.
  unfold Noble.CURVE_n. repeat split; try assumption; lia.
Qed.

(** One step: a non-hardened child of the public-only node stands for
    the same key as the child of the private-capable node. *)
Lemma deriveChild_agrees (N P : t) (i : Z) :
  paired N P -> 0 <= i < HARDENED_OFFSET ->
  agree (deriveChild hmacSha512 fingerprint N i)
        (deriveChild hmacSha512 fingerprint P i).
Proof.
  intros HNP Hi.
  destruct (paired_affine N P HNP) as (k & x & y & Hk & Hr & Hxy & Hpub & HP & HC & HN).
  pose proof curveOrder_pos as Hn.
  unfold deriveChild, childData, HARDENED_OFFSET in *.
  replace ((0 <=? i) && (i <? 2 ^ 32)) with true
    by (symmetry; apply andb_true_iff; rewrite Z.leb_le, Z.ltb_lt; lia).
  rewrite !assert_true. cbn [bind].
  destruct (Z.leb_spec 2147483648 i) as [|_]; [lia|]. cbn [bind].
  rewrite HP, HC, Hk, HN.
  set (I := hmacSha512 (chainCode N) (publicKey N ++ toBE 4 i)).
  set (IL := be2Z (slice I 0 32)).
  destruct (Noble.CURVE_n <=? IL); [cbn; now split|].
  set (child := (IL + be2Z k) mod Noble.CURVE_n).
  assert (Hc : 0 <= child < Noble.CURVE_n) by (apply Z.mod_pos_bound; lia).
  rewrite Hpub, (decodePoint_compressed _ x y Hxy).
  assert (Hsum : Noble.add (Noble.multiply Noble.BASE IL)
                           (Noble.multiply Noble.BASE (be2Z k))
                 = Noble.multiply Noble.BASE child).
  { unfold child.
    now rewrite CurveLaws.multiply_mod, CurveLaws.multiply_add. }
  rewrite Hsum.
  destruct (Z.eqb_spec child 0) as [E0|Hne].
  - assert (Hz : Noble.toAffine (Noble.multiply Noble.BASE child) = None).
    { apply CurveLaws.multiply_zero. rewrite E0. apply Z.mod_0_l. lia. }
    rewrite Hz. cbn. now split.
  - destruct (Noble.toAffine (Noble.multiply Noble.BASE child))
      as [[cx cy]|] eqn:Ec.
    + assert (Hv : isValidPrivateKey (toBE 32 child) = true).
      { apply isValidPrivateKey_iff. rewrite toBE_length.
        rewrite be2Z_toBE_small by (change (256 ^ Z.of_nat 32) with (2 ^ 256); lia).
        split; [reflexivity|]. unfold Noble.CURVE_n in Hc. lia. }
      rewrite (getPublicKey_valid _ Hv).
      rewrite be2Z_toBE_small by (change (256 ^ Z.of_nat 32) with (2 ^ 256); lia).
      rewrite (toRawBytes_shape _ true cx cy Ec). cbn [bind agree].
      exists (toBE 32 child). cbn [privateKey publicKey chainCode].
      split; [reflexivity|]. split; [exact Hv|]. split; [|now repeat split].
      rewrite (getPublicKey_valid _ Hv).
      rewrite be2Z_toBE_small by (change (256 ^ Z.of_nat 32) with (2 ^ 256); lia).
      apply (toRawBytes_shape _ true cx cy Ec).
    + exfalso. apply CurveLaws.multiply_zero in Ec.
      rewrite Z.mod_small in Ec by lia. contradiction.
Qed.

Lemma derivePath_agrees (path : list Z) (N P : t) :
  paired N P ->
  Forall (fun i => 0 <= i < HARDENED_OFFSET) path ->
  agree (derivePath hmacSha512 fingerprint N path)
        (derivePath hmacSha512 fingerprint P path).
Proof.
  revert N P. induction path as [|i path IH]; intros N P HNP Hpath.
  - exact HNP.
  - inversion Hpath as [|? ? Hi Hrest]; subst. cbn [derivePath].
    pose proof (deriveChild_agrees N P i HNP Hi) as Hstep.
    unfold agree in Hstep.
    destruct (deriveChild hmacSha512 fingerprint N i) as [c|e];
      destruct (deriveChild hmacSha512 fingerprint P i) as [c'|e'];
      cbn [bind]; try contradiction.
    + now apply IH.
    + exact Hstep.
Qed.

Lemma Forall_prefix {A : Type} (Q : A -> Prop) (l : list A) (n : nat) :
  Forall Q l -> Forall Q (firstn n l).
Proof.
  intros H. revert n. induction H as [|x l Hx Hl IH]; intros [|n]; cbn;
    constructor; auto.
Qed.

(** The public-only twin of a well-formed private-capable node. *)
Lemma fromPublicKey_paired (N : t) :
  (exists k, privateKey N = Some k /\ isValidPrivateKey k = true
             /\ Noble.getPublicKey k true = Ok (publicKey N)) ->
  length (chainCode N) = 32%nat ->
  exists P, fromPublicKey (publicKey N) (chainCode N) = Ok P /\ paired N P.
Proof.
  intros (k & Hk & Hv & Hpub) Hcc.
  pose proof Hpub as Hpub'.
  rewrite (getPublicKey_valid k Hv) in Hpub'. unfold Noble.toRawBytes in Hpub'.
  destruct (Noble.toAffine (Noble.multiply Noble.BASE (be2Z k)))
    as [[x y]|] eqn:E; [|discriminate].
  assert (Henc : publicKey N
                 = byte_of_Z (if Z.even y then 2 else 3) :: toBE 32 x)
    by congruence.
  unfold fromPublicKey. rewrite Hcc. cbn [Nat.eqb]. rewrite assert_true.
  cbn [bind]. rewrite Henc, (decodePoint_compressed _ x y E).
  rewrite (toRawBytes_shape _ true x y E). cbn [bind].
  eexists. split; [reflexivity|].
  exists k. cbn [privateKey publicKey chainCode].
  rewrite Henc. repeat split; try assumption. congruence.
Qed.

(** A child of a public-only node is public-only, whatever the index;
    a hardened child there is none. *)
Lemma deriveChild_public_only (Q c : t) (i : Z) :
  privateKey Q = None ->
  deriveChild hmacSha512 fingerprint Q i = Ok c ->
  privateKey c = None /\ i < HARDENED_OFFSET.
Proof.
  intros HQ. unfold deriveChild, childData. rewrite HQ.
  destruct (assert _ _ _ _) as [[]|]; cbn [bind]; [|discriminate].
  destruct (Z.leb_spec HARDENED_OFFSET i) as [|Hi]; cbn [bind]; [discriminate|].
  destruct (Noble.CURVE_n <=? _); [discriminate|].
  destruct (decodePoint (publicKey Q)) as [K|]; [|discriminate].
  destruct (Noble.toAffine _) as [[x y]|]; [|discriminate].
  destruct (Noble.toRawBytes _ true) as [pub|]; cbn [bind]; [|discriminate].
  intros E. assert (Ec : privateKey c = None) by (now inversion E).
  split; [exact Ec | exact Hi].
Qed.

(** C8.  Let [N] be a private-capable node: a valid private key, the
    public key the curve derives from it, a 32-byte chain code.  The node
    built by [fromPublicKey] from its public key and chain code is
    public-only, and along every sequence of non-hardened indices, at
    every index of it, deriving from the public-only node and deriving
    from [N] agree: both fail with InvalidHDNode, or both succeed and the
    public-only child has the public key and chain code of the private
    one and no private key.  Moreover every child of any public-only
    node is public-only. *)
Theorem public_derivation_agrees (N : t) (path : list Z) :
  (exists k, privateKey N = Some k /\ isValidPrivateKey k = true
             /\ Noble.getPublicKey k true = Ok (publicKey N)) ->
  length (chainCode N) = 32%nat ->
  Forall (fun i => 0 <= i < HARDENED_OFFSET) path ->
  exists P : t,
    fromPublicKey (publicKey N) (chainCode N) = Ok P
    /\ privateKey P = None
    /\ (forall n : nat,
         match derivePath hmacSha512 fingerprint N (firstn n path),
               derivePath hmacSha512 fingerprint P (firstn n path) with
         | Ok c, Ok c' =>
             publicKey c' = publicKey c
             /\ chainCode c' = chainCode c
             /\ privateKey c' = None
             /\ (exists kc, privateKey c = Some kc
                            /\ Noble.getPublicKey kc true = Ok (publicKey c))
         | Throw e, Throw e' =>
             code e = INVALID_HDNODE /\ code e' = INVALID_HDNODE
         | _, _ => False
         end)
    /\ (forall (Q c : t) (i : Z),
          privateKey Q = None ->
          deriveChild hmacSha512 fingerprint Q i = Ok c ->
          privateKey c = None).
Proof.
  intros HN Hcc Hpath.
  destruct (fromPublicKey_paired N HN Hcc) as (P & HP & Hpair).
  exists P. split; [exact HP|]. split; [|split].
  - now destruct Hpair as (k & _ & _ & _ & _ & _ & Hnone).
  - intros n.
    pose proof (derivePath_agrees (firstn n path) N P Hpair
                  (Forall_prefix _ path n Hpath)) as H.
    unfold agree in H.
    destruct (derivePath hmacSha512 fingerprint N (firstn n path)) as [c|e];
      destruct (derivePath hmacSha512 fingerprint P (firstn n path)) as [c'|e'];
      try exact H.
    destruct H as (kc & Hkc & _ & Hpub & Hp & Hc & Hnone).
    repeat split; try assumption. now exists kc.
  - intros Q c i HQ Hc. exact (proj1 (deriveChild_public_only Q c i HQ Hc)).
Qed.

End PublicDerivation.

(** [public_derivation_agrees] in the residue model, along the path 0, 1
    from the node of the key 1. *)
Lemma public_derivation_agrees_witness :
  exists P : HDNode.t,
    HDNode.fromPublicKey (C := CurveLaws.residues)
      (HDNode.publicKey Samples.residueRoot)
      (HDNode.chainCode Samples.residueRoot) = Ok P
    /\ HDNode.privateKey P = None
    /\ (forall n : nat,
         match HDNode.derivePath (C := CurveLaws.residues)
                 Samples.hmac64 Samples.fingerprint4
                 Samples.residueRoot (firstn n [0; 1]),
               HDNode.derivePath (C := CurveLaws.residues)
                 Samples.hmac64 Samples.fingerprint4 P (firstn n [0; 1]) with
         | Ok c, Ok c' =>
             HDNode.publicKey c' = HDNode.publicKey c
             /\ HDNode.chainCode c' = HDNode.chainCode c
             /\ HDNode.privateKey c' = None
             /\ (exists kc, HDNode.privateKey c = Some kc
                            /\ Noble.getPublicKey (C := CurveLaws.residues) kc true
                               = Ok (HDNode.publicKey c))
         | Throw e, Throw e' =>
             code e = INVALID_HDNODE /\ code e' = INVALID_HDNODE
         | _, _ => False
         end)
    /\ (forall (Q c : HDNode.t) (i : Z),
          HDNode.privateKey Q = None ->
          HDNode.deriveChild (C := CurveLaws.residues)
            Samples.hmac64 Samples.fingerprint4 Q i = Ok c ->
          HDNode.privateKey c = None).
Proof.
  apply (@public_derivation_agrees CurveLaws.residues residues_laws
           Samples.hmac64 Samples.fingerprint4 Samples.residueRoot [0; 1]).
  - exists (toBE 32 1).
    split; [reflexivity|]. split; vm_compute; reflexivity.
  - reflexivity.
  - repeat constructor; unfold HDNode.HARDENED_OFFSET; lia.
Defined.

(** The same agreement computed on secp256k1 itself, for the children 0
    and 1 of the node of the key 1. *)
Lemma public_derivation_on_secp256k1 :
  forall i : Z, In i [0; 1] ->
  exists (P c c' : HDNode.t),
    HDNode.fromPublicKey (HDNode.publicKey Samples.curveRoot)
      (HDNode.chainCode Samples.curveRoot) = Ok P
    /\ HDNode.deriveChild Samples.hmac64 Samples.fingerprint4
         Samples.curveRoot i = Ok c
    /\ HDNode.deriveChild Samples.hmac64 Samples.fingerprint4 P i = Ok c'
    /\ HDNode.publicKey c' = HDNode.publicKey c
    /\ HDNode.chainCode c' = HDNode.chainCode c
    /\ HDNode.privateKey c' = None.
Proof.
  intros i [<- | [<- | []]].
  - eexists. eexists. eexists.
    split; [vm_compute; reflexivity|].
    split; [vm_compute; reflexivity|].
    split; [vm_compute; reflexivity|].
    split; [reflexivity|]. split; reflexivity.
  - eexists. eexists. eexists.
    split; [vm_compute; reflexivity|].
    split; [vm_compute; reflexivity|].
    split; [vm_compute; reflexivity|].
    split; [reflexivity|]. split; reflexivity.
Qed.

(** ** Signing, then recovering *)

Section Congruences.

(** Arithmetic modulo the order of the base point. *)
#[local] Instance eqm_equiv : Equivalence (eqm Noble.CURVE_n) :=
  eqm_setoid Noble.CURVE_n.
#[local] Instance add_eqm :
  Proper (eqm Noble.CURVE_n ==> eqm Noble.CURVE_n ==> eqm Noble.CURVE_n) Z.add :=
  Zplus_eqm Noble.CURVE_n.
#[local] Instance sub_eqm :
  Proper (eqm Noble.CURVE_n ==> eqm Noble.CURVE_n ==> eqm Noble.CURVE_n) Z.sub :=
  Zminus_eqm Noble.CURVE_n.
#[local] Instance mul_eqm :
  Proper (eqm Noble.CURVE_n ==> eqm Noble.CURVE_n ==> eqm Noble.CURVE_n) Z.mul :=
  Zmult_eqm Noble.CURVE_n.
#[local] Instance opp_eqm :
  Proper (eqm Noble.CURVE_n ==> eqm Noble.CURVE_n) Z.opp :=
  Zopp_eqm Noble.CURVE_n.

Lemma modN_eqm (a : Z) : eqm Noble.CURVE_n (Noble.modN a) a.
Proof. apply Zmod_eqm. Qed.

Hypothesis order_prime : Z.prime Noble.CURVE_n.

Lemma invN_eqm (a : Z) :
  0 < a < Noble.CURVE_n -> eqm Noble.CURVE_n (Noble.invN a * a) 1.
Proof.
  intros Ha. unfold eqm, Noble.invN.
  rewrite Z.invmod_prime; [|exact order_prime|rewrite Z.mod_small; lia].
  symmetry. apply Z.mod_small. pose proof curveOrder_pos. lia.
Qed.

(** The scalar that recovery multiplies the base point by is the signing
    key: with s = (m + r d) / k, (s k - m) / r = d. *)
Lemma recovered_scalar (m d k r : Z) :
  0 < k < Noble.CURVE_n -> 0 < r < Noble.CURVE_n ->
  let s := Noble.modN (Noble.invN k * Noble.modN (m + r * d)) in
  eqm Noble.CURVE_n
    (Noble.modN (- m * Noble.invN r) + k * Noble.modN (s * Noble.invN r)) d
  /\ eqm Noble.CURVE_n
       (Noble.modN (- m * Noble.invN r)
        + - k * Noble.modN (Noble.modN (- s) * Noble.invN r)) d.
Proof.
  intros Hk Hr s. subst s.
  pose proof (invN_eqm k Hk) as Ek. pose proof (invN_eqm r Hr) as Er.
  set (ik := Noble.invN k) in *. set (ir := Noble.invN r) in *.
  assert (E : eqm Noble.CURVE_n
                (- m * ir + (ik * k) * ((m + r * d) * ir)) d).
  { rewrite Ek.
    replace (- m * ir + 1 * ((m + r * d) * ir)) with ((ir * r) * d) by ring.
    rewrite Er. now rewrite Z.mul_1_l. }
  split.
  - rewrite !modN_eqm. rewrite <- E at 2.
    replace (- m * ir + k * (ik * (m + r * d) * ir))
      with (- m * ir + ik * k * ((m + r * d) * ir)) by ring.
    reflexivity.
  - rewrite !modN_eqm. rewrite <- E at 2.
    replace (- m * ir + - k * (- (ik * (m + r * d)) * ir))
      with (- m * ir + ik * k * ((m + r * d) * ir)) by ring.
    reflexivity.
Qed.

End Congruences.

Section Recovery.

Import secp256k1.

Context {C : Noble.Curve} {L : CurveLaws.t C} {D : Noble.Drbg}.

Hypothesis order_prime : Z.prime Noble.CURVE_n.

Lemma land_1_odd (z : Z) : Z.land z 1 = if Z.odd z then 1 else 0.
Proof.
  assert (E : Z.land z 1 = z mod 2) by (apply (Z.land_ones z 1); lia).
  rewrite E. apply Zmod_odd.
Qed.

(** A recovery id of 0 or 1 says that the abscissa of the nonce point is
    below the order, and tells the parity of its ordinate. *)
Lemma recovery_plain (same : bool) (qy : Z) :
  Z.lor (if same then 0 else 2) (Z.land qy 1) <= 1 ->
  same = true
  /\ negb (Z.land (Z.lor (if same then 0 else 2) (Z.land qy 1)) 1 =? 0)
     = Z.odd qy.
Proof.
  rewrite land_1_odd. destruct same, (Z.odd qy); cbn; intros H;
    (split; [reflexivity || lia | reflexivity || lia]).
Qed.

Lemma recovery_flipped (same : bool) (qy : Z) :
  Z.lxor (Z.lor (if same then 0 else 2) (Z.land qy 1)) 1 <= 1 ->
  same = true
  /\ negb (Z.land (Z.lxor (Z.lor (if same then 0 else 2) (Z.land qy 1)) 1) 1
           =? 0)
     = negb (Z.odd qy).
Proof.
  rewrite land_1_odd. destruct same, (Z.odd qy); cbn; intros H;
    (split; [reflexivity || lia | reflexivity || lia]).
Qed.

(** What an accepted nonce gives. *)
Lemma k2sig_inv (m d k : Z) (sg : Noble.Signature) :
  Noble.k2sig m d k = Some sg ->
  exists qx qy : Z,
    0 < k < Noble.CURVE_n
    /\ Noble.toAffine (Noble.multiply Noble.BASE k) = Some (qx, qy)
    /\ 0 < Noble.modN qx < Noble.CURVE_n
    /\ 0 < Noble.modN (Noble.invN k * Noble.modN (m + Noble.modN qx * d))
       < Noble.CURVE_n
    /\ (sg = Noble.mkSignature (Noble.modN qx)
               (Noble.modN (Noble.invN k * Noble.modN (m + Noble.modN qx * d)))
               (Some (Z.lor (if qx =? Noble.modN qx then 0 else 2)
                            (Z.land qy 1)))
        \/ sg = Noble.mkSignature (Noble.modN qx)
                  (Noble.modN
                     (- Noble.modN (Noble.invN k
                                    * Noble.modN (m + Noble.modN qx * d))))
                  (Some (Z.lxor (Z.lor (if qx =? Noble.modN qx then 0 else 2)
                                       (Z.land qy 1)) 1))).
Proof.
  unfold Noble.k2sig.
  destruct (Noble.isWithinCurveOrder k) eqn:Hk; cbn [negb]; [|discriminate].
  apply isWithinCurveOrder_iff in Hk.
  destruct (Noble.toAffine (Noble.multiply Noble.BASE k)) as [[qx qy]|];
    [|discriminate].
  destruct (Z.eqb_spec (Noble.modN qx) 0) as [|Hr]; [discriminate|].
  destruct (Z.eqb_spec
              (Noble.modN (Noble.invN k * Noble.modN (m + Noble.modN qx * d))) 0)
    as [|Hs]; [discriminate|].
  pose proof (modN_range qx).
  pose proof (modN_range (Noble.invN k * Noble.modN (m + Noble.modN qx * d))).
  intros E. exists qx, qy.
  split; [assumption|]. split; [reflexivity|]. split; [lia|]. split; [lia|].
  destruct (Noble.isBiggerThanHalfOrder _); injection E as <-; [right | left];
    reflexivity.
Qed.

Lemma modN_opp_range (a : Z) :
  0 < a < Noble.CURVE_n -> 0 < Noble.modN (- a) < Noble.CURVE_n.
Proof.
  intros Ha. unfold Noble.modN.
  rewrite Z.mod_opp_l_nz by (try rewrite Z.mod_small; lia).
  rewrite Z.mod_small by lia. lia.
Qed.

Lemma Signature_fromCompact_toBE (r s : Z) :
  0 < r < Noble.CURVE_n -> 0 < s < Noble.CURVE_n ->
  Noble.Signature_fromCompact (toBE 32 r ++ toBE 32 s)
  = Ok (Noble.mkSignature r s None).
Proof.
  intros Hr Hs. pose proof curveOrder_pos as Hn.
  change (2 ^ 256) with (256 ^ Z.of_nat 32) in Hn.
  unfold Noble.Signature_fromCompact.
  rewrite length_app, !toBE_length. cbn [Nat.add Nat.eqb negb].
  rewrite slice_head by apply toBE_length.
  replace (toBE 32 r ++ toBE 32 s) with (toBE 32 r ++ toBE 32 s ++ [])
    by (now rewrite app_nil_r).
  rewrite slice_middle by apply toBE_length.
  rewrite !be2Z_toBE_small by lia.
  replace (Noble.isWithinCurveOrder r) with true
    by (symmetry; now apply isWithinCurveOrder_iff).
  replace (Noble.isWithinCurveOrder s) with true
    by (symmetry; now apply isWithinCurveOrder_iff).
  reflexivity.
Qed.

(** Recovery from [r], a scalar [s] and a point [R] of abscissa [r]: when
    [R] is the multiple [k'] of the base point and (s k' - m) / r is the
    key [d], the key's point comes back. *)
Lemma recoverPublicKey_scalar (h : Buffer) (r s v d k' : Z) :
  0 < r < Noble.CURVE_n -> 0 <= v <= 1 -> 0 < d < Noble.CURVE_n ->
  Noble.liftX r (negb (Z.land v 1 =? 0))
  = Some (Noble.multiply Noble.BASE k') ->
  eqm Noble.CURVE_n
    (Noble.modN (- Noble.bits2int_modN h * Noble.invN r)
     + k' * Noble.modN (s * Noble.invN r)) d ->
  Noble.recoverPublicKey (Noble.mkSignature r s (Some v)) h
  = Ok (Noble.multiply Noble.BASE d).
Proof.
  intros Hr Hv Hd Hlift Heq.
  assert (Hp : Noble.CURVE_n < Noble.Fp_ORDER)
    by (unfold Noble.CURVE_n, curveOrder, Noble.Fp_ORDER; lia).
  unfold Noble.recoverPublicKey. cbn [Noble.recovery Noble.r Noble.s].
  replace ((0 <=? v) && (v <=? 3)) with true
    by (symmetry; apply andb_true_iff; rewrite !Z.leb_le; lia).
  cbn [negb].
  replace ((v =? 2) || (v =? 3)) with false
    by (symmetry; apply orb_false_iff; rewrite !Z.eqb_neq; lia).
  destruct (Z.leb_spec Noble.Fp_ORDER r) as [|_]; [lia|].
  unfold Noble.Point_fromCompressed.
  replace ((0 <? r) && (r <? Noble.Fp_ORDER)) with true
    by (symmetry; apply andb_true_iff; rewrite !Z.ltb_lt; lia).
  cbn [negb]. rewrite Hlift. cbn [bind].
  rewrite CurveLaws.multiply_multiply, <- CurveLaws.multiply_add.
  rewrite <- CurveLaws.multiply_mod. unfold eqm in Heq. rewrite Heq.
  rewrite CurveLaws.multiply_mod.
  destruct (Noble.toAffine (Noble.multiply Noble.BASE d)) eqn:E; [reflexivity|].
  apply CurveLaws.multiply_zero in E. rewrite Z.mod_small in E by lia. lia.
Qed.

(** Signing, then recovering: when [sign] returns a signature whose
    recovery byte is 0 or 1, [recover] gives back the uncompressed public
    key of the signing key. *)
Theorem sign_then_recover (h k out : Buffer) :
  length h = 32%nat -> isValidPrivateKey k = true ->
  sign h k = Ok out -> u8 (nth 64 out x00) <= 1 ->
  recover h out = derivePublicKey k (Some false).
Proof.
  intros Hh Hk Hout Hv.
  (* the library's signature *)
  destruct (Noble.sign h k) as [sg|e] eqn:Hsg.
  2:{ exfalso. revert Hout.
      unfold sign, assertIsValidSecp256k1MessageHash, assertIsValidPrivateKey.
      apply isValidMessageHash_iff in Hh.
      rewrite Hh, Hk, !assert_true, Hsg. discriminate. }
  destruct (sign_bytes h k sg Hh Hk Hsg) as (v & Hrec & Hv3 & Hbytes).
  assert (Eout : out = toBE 32 (Noble.r sg) ++ toBE 32 (Noble.s sg)
                        ++ [byte_of_Z v]) by congruence.
  clear Hout Hbytes. subst out.
  (* its nonce *)
  pose proof Hsg as Hnonce. unfold Noble.sign in Hnonce.
  rewrite (normPrivateKeyToScalar_valid k Hk) in Hnonce. cbn [bind] in Hnonce.
  destruct (Noble.genUntil _ _ _ _ _) as [sg'|] eqn:Hgen; [|discriminate].
  injection Hnonce as ->. apply genUntil_k2sig in Hgen. destruct Hgen as [j Hj].
  apply k2sig_inv in Hj.
  destruct Hj as (qx & qy & Hkk & Hq & Hr & Hs & Hsg').
  set (kk := Noble.bits2int (Noble.candidate _ j)) in *.
  set (m := Noble.bits2int_modN h) in *.
  set (d := be2Z k) in *.
  assert (Hd : 0 < d < Noble.CURVE_n)
    by (apply isValidPrivateKey_iff in Hk; unfold Noble.CURVE_n; tauto).
  (* the recovery byte *)
  assert (Hbyte : nth 64 (toBE 32 (Noble.r sg) ++ toBE 32 (Noble.s sg)
                          ++ [byte_of_Z v]) x00 = byte_of_Z v).
  { apply nth_error_nth.
    apply nth_error_tail. now rewrite length_app, !toBE_length. }
  rewrite Hbyte, u8_byte_of_Z, Z.mod_small in Hv by lia.
  (* past the checks *)
  rewrite recover_after_checks;
    [| exact Hh
     | now rewrite !length_app, !toBE_length
     | rewrite Hbyte, u8_byte_of_Z, Z.mod_small by lia; lia].
  rewrite Hbyte, u8_byte_of_Z, Z.mod_small by lia.
  rewrite app_assoc, slice_head by (now rewrite length_app, !toBE_length).
  assert (Hkey : derivePublicKey k (Some false)
                 = Noble.toRawBytes (Noble.multiply Noble.BASE d) false).
  { unfold derivePublicKey, assertIsValidPrivateKey. cbv zeta.
    rewrite Hk, assert_true. cbn [bind orDefault].
    unfold Noble.getPublicKey.
    now rewrite (normPrivateKeyToScalar_valid k Hk). }
  rewrite Hkey.
  destruct (recovered_scalar order_prime m d kk (Noble.modN qx) Hkk Hr)
    as [Eplain Eflip].
  destruct Hsg' as [-> | ->]; cbn [Noble.r Noble.s Noble.recovery] in *;
    injection Hrec as <-.
  - (* s as computed *)
    destruct (recovery_plain _ qy Hv) as [Hsame Hodd].
    apply Z.eqb_eq in Hsame.
    rewrite Signature_fromCompact_toBE by assumption. cbn [bind].
    unfold Noble.addRecoveryBit. cbn [Noble.r Noble.s].
    rewrite (recoverPublicKey_scalar h _ _ _ d kk); try assumption; try lia.
    + reflexivity.
    + rewrite Hodd, <- Hsame. exact (proj2 (CurveLaws.lift_affine kk qx qy Hq)).
  - (* s negated, recovery bit flipped *)
    destruct (recovery_flipped _ qy Hv) as [Hsame Hodd].
    apply Z.eqb_eq in Hsame.
    assert (Hneg : 0 < Noble.modN
                         (- Noble.modN (Noble.invN kk
                                        * Noble.modN (m + Noble.modN qx * d)))
                   < Noble.CURVE_n).
    { apply modN_opp_range. exact Hs. }
    rewrite Signature_fromCompact_toBE by assumption. cbn [bind].
    unfold Noble.addRecoveryBit. cbn [Noble.r Noble.s].
    rewrite (recoverPublicKey_scalar h _ _ _ d (- kk)); try assumption; try lia.
    + reflexivity.
    + rewrite Hodd, <- Hsame. exact (CurveLaws.lift_affine_opp kk qx qy Hq).
Qed.

End Recovery.

(** ** The text of a decoding error *)

Section PhraseErrors.

Import mnemonic ErrorText.

Local Open Scope string_scope.

Variable wordlist : list string.
Variable pbkdf2 : Buffer -> Buffer -> Buffer.

(** [split] never returns the empty list. *)
Lemma split_nonempty (text : string) : split text <> [].
Proof.
  unfold split. generalize EmptyString as current.
  induction text as [|c text IH]; intros current; cbn [splitAcc].
  - discriminate.
  - destruct (Ascii.eqb c " "); [discriminate | apply IH].
Qed.


(** A phrase of one word never decodes. *)
Lemma toSeed_single_word (w pass : string) :
  toSeed wordlist pbkdf2 [w] pass = Throw (invalidMnemonic "mnemonic.toSeed").
Proof. reflexivity. Qed.

(** Whatever text an implementation fixes for its decoding error, some
    invalid phrase is made of a token of that text. *)
Lemma fixed_text_meets_a_phrase (text : string) :
  exists w : string,
    In w (split text)
    /\ toSeed wordlist pbkdf2 [w] ""
       = Throw (invalidMnemonic "mnemonic.toSeed").
Proof.
  destruct (split text) as [|w rest] eqn:E.
  - now apply split_nonempty in E.
  - exists w. split; [now left | apply toSeed_single_word].
Qed.


End PhraseErrors.


